(** * Buffers: GPU buffer wrappers over the graphics API and its allocator

    A shallow embedding of [src/Buffers.cc] (namespace [Buffers]), together
    with the properties of the memory-type selector, of buffer
    construction, of the host upload, of the one-shot transfer and of
    ownership under moves. *)

From Stdlib Require Import ZArith NArith Lia.
From Stdlib.Strings Require Import Byte.
From stdpp Require Import base numbers option list sorting gmap.

Local Open Scope Z_scope.

(** * Machine integers and handles *)

(** [uint32_t] values are integers in [0, 2^32); arithmetic wraps. *)
Definition uint32_max : Z := 2 ^ 32.

Definition is_uint32 (z : Z) : Prop := 0 ≤ z < uint32_max.

Definition wrap32 (z : Z) : Z := z mod uint32_max.

(** [VkResult]: the integer code of the C enumeration. *)
Definition VkResult := Z.
Definition VK_SUCCESS : VkResult := 0.
Definition VK_ERROR_MEMORY_MAP_FAILED : VkResult := -5.

(** What a [std::runtime_error] thrown by this file carries.  The two
    literal messages are named after their text; the other five are the
    constants of [ErrorMessages] the transfer passes to the check macro. *)
Inductive runtime_error : Type :=
| CannotFindSuitableMemoryType
| CannotCreateBuffer
| FAILED_CANNOT_CREATE_CMD_BUFFER
| FAILED_CANNOT_BEGIN_CMD_BUFFER
| FAILED_CANNOT_END_CMD_BUFFER
| FAILED_CANNOT_SUBMIT_QUEUE
| FAILED_WAIT_IDLE.

Global Instance runtime_error_eq_dec : EqDecision runtime_error.
Proof. solve_decision. Defined.

(** A call either returns a value or leaves by an exception. *)
Inductive outcome (A : Type) : Type :=
| Ok (a : A)
| Throw (e : runtime_error).
Arguments Ok {A} a.
Arguments Throw {A} e.

(** * The memory-type selector *)

Module Selector.

(** [memoryTypes] holds the [propertyFlags] of the first [memoryTypeCount]
    entries that [vkGetPhysicalDeviceMemoryProperties] reports.  The loop
    carries the index [i] and the one-bit [mask], which is shifted left in
    32 bits after every rejected entry. *)
Fixpoint getMemoryType_from (memoryTypes : list Z) (properties filter : Z)
    (i : N) (mask : Z) : outcome N :=
  match memoryTypes with
  | [] => Throw CannotFindSuitableMemoryType
  | propertyFlags :: rest =>
      if negb (Z.land filter mask =? 0)
         && (Z.land propertyFlags properties =? properties)
      then Ok i
      else getMemoryType_from rest properties filter (N.succ i)
             (wrap32 (Z.shiftl mask 1))
  end.

Definition getMemoryType (memoryTypes : list Z) (properties filter : Z)
    : outcome N :=
  getMemoryType_from memoryTypes properties filter 0%N 1.

(** Index [i] is acceptable: bit [i] of the filter is set and the flags of
    type [i] contain every required flag. *)
Definition acceptable (memoryTypes : list Z) (properties filter : Z) (i : N)
    : Prop :=
  Z.testbit filter (Z.of_N i) = true ∧
  ∃ flags, memoryTypes !! N.to_nat i = Some flags
           ∧ Z.land flags properties = properties.

Definition lowest_acceptable (memoryTypes : list Z) (properties filter : Z)
    (i : N) : Prop :=
  acceptable memoryTypes properties filter i ∧
  ∀ j, acceptable memoryTypes properties filter j → (i ≤ j)%N.

End Selector.

(** * The host graphics system *)

(** Handles ([VkBuffer], [VmaAllocation], [VkCommandBuffer], [VkQueue],
    [VkCommandPool]) and the addresses held in pointers ([VkDevice*],
    [VmaAllocator*], mapped host pointers) are numbers of type [N]; [0] is
    [VK_NULL_HANDLE] and [nullptr]. *)
Definition VK_NULL_HANDLE : N := 0%N.
Definition nullptr : N := 0%N.

Inductive VkSharingMode : Type :=
| VK_SHARING_MODE_EXCLUSIVE
| VK_SHARING_MODE_CONCURRENT.

Inductive VkCommandBufferLevel : Type :=
| VK_COMMAND_BUFFER_LEVEL_PRIMARY
| VK_COMMAND_BUFFER_LEVEL_SECONDARY.

Definition VK_COMMAND_BUFFER_USAGE_ONE_TIME_SUBMIT_BIT : Z := 1.

(** The fields of [VkBufferCreateInfo] this file sets.  A null
    [pQueueFamilyIndices] is [None]; otherwise the field is the array it
    points to. *)
Record VkBufferCreateInfo : Type := {
  createInfo_size : N;
  createInfo_usage : Z;
  sharingMode : VkSharingMode;
  queueFamilyIndexCount : Z;
  pQueueFamilyIndices : option (list N)
}.

Record VmaAllocationCreateInfo : Type := {
  allocInfo_usage : Z;
  requiredFlags : Z
}.

Record VkBufferCopy : Type := {
  srcOffset : N;
  dstOffset : N;
  copyRegion_size : N
}.

Record VkCommandBufferAllocateInfo : Type := {
  commandPool : N;
  level : VkCommandBufferLevel;
  allocateInfo_commandBufferCount : Z
}.

Record VkCommandBufferBeginInfo : Type := {
  beginInfo_flags : Z
}.

(** [VkSubmitInfo] as filled in here: command buffers only, no semaphores. *)
Record VkSubmitInfo : Type := {
  submitInfo_commandBufferCount : Z;
  pCommandBuffers : list N
}.

(** The entries of [pQueueFamilyIndices] the API reads: the first
    [queueFamilyIndexCount] of them. *)
Definition listed_queue_families (createInfo : VkBufferCreateInfo) : list N :=
  take (Z.to_nat (queueFamilyIndexCount createInfo))
       (default [] (pQueueFamilyIndices createInfo)).

(** A recorded device command. *)
Inductive Command : Type :=
| CopyBuffer (srcBuffer dstBuffer : N) (regions : list VkBufferCopy).

(** Every call this file makes into the allocator, the device and the C
    library, with the arguments it passes. *)
Inductive Call : Type :=
| vmaCreateBuffer_call (allocator : N) (createInfo : VkBufferCreateInfo)
    (allocInfo : VmaAllocationCreateInfo)
| vmaDestroyBuffer_call (allocator buffer allocation : N)
| vmaMapMemory_call (allocator allocation : N)
| vmaUnmapMemory_call (allocator allocation : N)
| memcpy_call (dest : N) (src : list byte) (count : N)
| vkAllocateCommandBuffers_call (device : N)
    (allocateInfo : VkCommandBufferAllocateInfo)
| vkBeginCommandBuffer_call (commandBuffer : N)
    (beginInfo : VkCommandBufferBeginInfo)
| vkCmdCopyBuffer_call (commandBuffer srcBuffer dstBuffer : N)
    (regions : list VkBufferCopy)
| vkEndCommandBuffer_call (commandBuffer : N)
| vkQueueSubmit_call (queue : N) (submits : list VkSubmitInfo) (fence : N)
| vkQueueWaitIdle_call (queue : N)
| vkFreeCommandBuffers_call (device pool : N) (commandBuffers : list N).

(** The state of the host graphics system, as far as this file can
    observe it. *)
Record World : Type := {
  (** bytes backing each live [VmaAllocation] *)
  memory : gmap N (list byte);
  (** the allocation each live [VkBuffer] is bound to *)
  binding : gmap N N;
  (** live command buffers: their pool and what they recorded *)
  cmdbufs : gmap N (N * list Command);
  (** per queue, the commands submitted and not yet executed *)
  pending : gmap N (list Command);
  (** handles are issued in increasing order and never reissued *)
  last_handle : N;
  (** the calls made so far, oldest first *)
  calls : list Call
}.

Definition empty_world : World :=
  {| memory := ∅; binding := ∅; cmdbufs := ∅; pending := ∅;
     last_handle := 0%N; calls := [] |}.

Definition log (c : Call) (w : World) : World :=
  {| memory := memory w; binding := binding w; cmdbufs := cmdbufs w;
     pending := pending w; last_handle := last_handle w;
     calls := calls w ++ [c] |}.

Definition set_memory (m : gmap N (list byte)) (w : World) : World :=
  {| memory := m; binding := binding w; cmdbufs := cmdbufs w;
     pending := pending w; last_handle := last_handle w; calls := calls w |}.

Definition set_binding (b : gmap N N) (w : World) : World :=
  {| memory := memory w; binding := b; cmdbufs := cmdbufs w;
     pending := pending w; last_handle := last_handle w; calls := calls w |}.

Definition set_cmdbufs (c : gmap N (N * list Command)) (w : World) : World :=
  {| memory := memory w; binding := binding w; cmdbufs := c;
     pending := pending w; last_handle := last_handle w; calls := calls w |}.

Definition set_pending (p : gmap N (list Command)) (w : World) : World :=
  {| memory := memory w; binding := binding w; cmdbufs := cmdbufs w;
     pending := p; last_handle := last_handle w; calls := calls w |}.

Definition set_last_handle (h : N) (w : World) : World :=
  {| memory := memory w; binding := binding w; cmdbufs := cmdbufs w;
     pending := pending w; last_handle := h; calls := calls w |}.

(** The bytes of a buffer: those of the allocation it is bound to. *)
Definition buffer_content (w : World) (buffer : N) : option (list byte) :=
  binding w !! buffer ≫= λ allocation, memory w !! allocation.

(** ** Computations that change the world and may throw *)

Definition M (A : Type) : Type := World → outcome A * World.

Global Instance M_ret : MRet M := λ A a w, (Ok a, w).

Global Instance M_bind : MBind M := λ A B f m w,
  match m w with
  | (Ok a, w') => f a w'
  | (Throw e, w') => (Throw e, w')
  end.

Definition throw {A : Type} (e : runtime_error) : M A := λ w, (Throw e, w).

(** The world a computation leaves, whether it returns or throws. *)
Definition after {A : Type} (m : M A) (w : World) : World := (m w).2.

(** What a device executes for one region of a buffer copy, as a change
    of the memory behind the allocations, under the bindings [bnd] of
    buffers to allocations.  A region outside either buffer is invalid
    usage; the model leaves memory as it is then. *)
Definition copy_region (bnd : gmap N N) (srcBuffer dstBuffer : N)
    (r : VkBufferCopy) (mem : gmap N (list byte)) : gmap N (list byte) :=
  match bnd !! srcBuffer, bnd !! dstBuffer with
  | Some sa, Some da =>
      match mem !! sa, mem !! da with
      | Some sm, Some dm =>
          let so := N.to_nat (srcOffset r) in
          let do := N.to_nat (dstOffset r) in
          let n := N.to_nat (copyRegion_size r) in
          if bool_decide (so + n ≤ length sm ∧ do + n ≤ length dm)%nat
          then <[da := take do dm ++ take n (drop so sm) ++ drop (do + n) dm]>
                 mem
          else mem
      | _, _ => mem
      end
  | _, _ => mem
  end.

Definition execute (bnd : gmap N N) (c : Command) (mem : gmap N (list byte))
    : gmap N (list byte) :=
  match c with
  | CopyBuffer srcBuffer dstBuffer regions =>
      foldl (λ mem r, copy_region bnd srcBuffer dstBuffer r mem) mem regions
  end.

Definition recorded (w : World) (commandBuffer : N) : list Command :=
  from_option snd [] (cmdbufs w !! commandBuffer).

(** What [memcpy] leaves in the destination: [n] bytes of the source over
    its first [n] bytes.  Both must hold [n] bytes, as C requires. *)
Definition overwrite (src : list byte) (n : nat) (dest : list byte)
    : list byte :=
  take n src ++ drop n dest.

(** * The buffer type and its operations *)

Module Buffers.

(** The data members of [Buffers::Buffer]. *)
Record Buffer : Type := {
  logicalDev : N;
  allocator : N;
  size : N;
  vertexBuffer : N;
  allocation : N
}.

Definition set_logicalDev (v : N) (b : Buffer) : Buffer :=
  {| logicalDev := v; allocator := allocator b; size := size b;
     vertexBuffer := vertexBuffer b; allocation := allocation b |}.

Definition set_allocator (v : N) (b : Buffer) : Buffer :=
  {| logicalDev := logicalDev b; allocator := v; size := size b;
     vertexBuffer := vertexBuffer b; allocation := allocation b |}.

Definition set_size (v : N) (b : Buffer) : Buffer :=
  {| logicalDev := logicalDev b; allocator := allocator b; size := v;
     vertexBuffer := vertexBuffer b; allocation := allocation b |}.

Definition set_vertexBuffer (v : N) (b : Buffer) : Buffer :=
  {| logicalDev := logicalDev b; allocator := allocator b; size := size b;
     vertexBuffer := v; allocation := allocation b |}.

Definition set_allocation (v : N) (b : Buffer) : Buffer :=
  {| logicalDev := logicalDev b; allocator := allocator b; size := size b;
     vertexBuffer := vertexBuffer b; allocation := v |}.

(** [std::optional<std::set<uint32_t>>]. *)
Definition has_value (usedQueues : option (gset N)) : bool :=
  bool_decide (is_Some usedQueues).

Definition value (usedQueues : option (gset N)) : gset N :=
  default ∅ usedQueues.

(** Iterating a [std::set] visits its elements in increasing order. *)
Definition in_order (queues : gset N) : list N :=
  merge_sort N.le (elements queues).

Section Api.

(** The answer of the host system to a call that can fail, as a function
    of the call and of the world it is made in.  Nothing is assumed
    about it. *)
Variable api_result : Call → World → VkResult.

(** ** The allocator and the device *)

(** On success the allocator issues a buffer and an allocation of
    [createInfo.size] bytes bound to it; the model fills fresh memory
    with zeros.  On failure both outputs are null. *)
Definition vmaCreateBuffer (vma : N) (createInfo : VkBufferCreateInfo)
    (allocInfo : VmaAllocationCreateInfo) : M (VkResult * (N * N)) := λ w,
  let c := vmaCreateBuffer_call vma createInfo allocInfo in
  let r := api_result c w in
  if r =? VK_SUCCESS then
    let buffer := N.succ (last_handle w) in
    let alloc := N.succ buffer in
    (Ok (r, (buffer, alloc)),
     log c
       (set_last_handle alloc
          (set_binding (<[buffer := alloc]> (binding w))
             (set_memory
                (<[alloc := replicate (N.to_nat (createInfo_size createInfo))
                                      x00]> (memory w)) w))))
  else (Ok (r, (VK_NULL_HANDLE, VK_NULL_HANDLE)), log c w).

Definition vmaDestroyBuffer (vma buffer alloc : N) : M () := λ w,
  (Ok (),
   log (vmaDestroyBuffer_call vma buffer alloc)
     (set_binding (delete buffer (binding w))
        (set_memory (delete alloc (memory w)) w))).

(** On success the output pointer is the base of the mapped allocation,
    which the model names by the allocation's handle; on failure the
    pointer keeps the value it had. *)
Definition vmaMapMemory (vma alloc ppData : N) : M (VkResult * N) := λ w,
  let c := vmaMapMemory_call vma alloc in
  let r := api_result c w in
  (Ok (r, if r =? VK_SUCCESS then alloc else ppData), log c w).

Definition vmaUnmapMemory (vma alloc : N) : M () := λ w,
  (Ok (), log (vmaUnmapMemory_call vma alloc) w).

Definition memcpy (dest : N) (src : list byte) (count : N) : M () := λ w,
  (Ok (),
   log (memcpy_call dest src count)
     (set_memory (alter (overwrite src (N.to_nat count)) dest (memory w)) w)).

(** As called here, for one command buffer. *)
Definition vkAllocateCommandBuffers (device : N)
    (allocateInfo : VkCommandBufferAllocateInfo) (pCommandBuffers : N)
    : M (VkResult * N) := λ w,
  let c := vkAllocateCommandBuffers_call device allocateInfo in
  let r := api_result c w in
  if r =? VK_SUCCESS then
    let cb := N.succ (last_handle w) in
    (Ok (r, cb),
     log c
       (set_last_handle cb
          (set_cmdbufs (<[cb := (commandPool allocateInfo, [])]> (cmdbufs w))
             w)))
  else (Ok (r, pCommandBuffers), log c w).

Definition vkBeginCommandBuffer (commandBuffer : N)
    (beginInfo : VkCommandBufferBeginInfo) : M (VkResult * ()) := λ w,
  let c := vkBeginCommandBuffer_call commandBuffer beginInfo in
  let r := api_result c w in
  if r =? VK_SUCCESS then
    (Ok (r, ()),
     log c (set_cmdbufs (alter (λ pc, (pc.1, [])) commandBuffer (cmdbufs w)) w))
  else (Ok (r, ()), log c w).

Definition vkCmdCopyBuffer (commandBuffer srcBuffer dstBuffer : N)
    (regions : list VkBufferCopy) : M () := λ w,
  (Ok (),
   log (vkCmdCopyBuffer_call commandBuffer srcBuffer dstBuffer regions)
     (set_cmdbufs
        (alter (λ pc, (pc.1, pc.2 ++ [CopyBuffer srcBuffer dstBuffer regions]))
               commandBuffer (cmdbufs w)) w)).

Definition vkEndCommandBuffer (commandBuffer : N) : M (VkResult * ()) := λ w,
  let c := vkEndCommandBuffer_call commandBuffer in
  (Ok (api_result c w, ()), log c w).

(** A successful submission queues what the command buffers recorded. *)
Definition vkQueueSubmit (queue : N) (submits : list VkSubmitInfo)
    (fence : N) : M (VkResult * ()) := λ w,
  let c := vkQueueSubmit_call queue submits fence in
  let r := api_result c w in
  if r =? VK_SUCCESS then
    let cmds := submits ≫= λ s, pCommandBuffers s ≫= recorded w in
    (Ok (r, ()),
     log c
       (set_pending
          (<[queue := default [] (pending w !! queue) ++ cmds]> (pending w))
          w))
  else (Ok (r, ()), log c w).

(** A successful wait returns once the queue has executed, in order,
    everything submitted to it. *)
Definition vkQueueWaitIdle (queue : N) : M (VkResult * ()) := λ w,
  let c := vkQueueWaitIdle_call queue in
  let r := api_result c w in
  if r =? VK_SUCCESS then
    (Ok (r, ()),
     log c
       (set_pending (delete queue (pending w))
          (set_memory
             (foldl (λ mem cmd, execute (binding w) cmd mem) (memory w)
                    (default [] (pending w !! queue)))
             w)))
  else (Ok (r, ()), log c w).

Definition vkFreeCommandBuffers (device pool : N) (commandBuffers : list N)
    : M () := λ w,
  (Ok (),
   log (vkFreeCommandBuffers_call device pool commandBuffers)
     (set_cmdbufs (foldr delete (cmdbufs w) commandBuffers) w)).

(** Modelled from the spec: the macro [CHECK_VK_SUCCESS] of [common.h],
    which is not among the sources.  A failure of the checked call is
    fatal and surfaced immediately: the call is made once, and a result
    other than [VK_SUCCESS] throws the error given.  The call hands on
    the values it stored through its output parameters. *)
Definition CHECK_VK_SUCCESS {A : Type} (call : M (VkResult * A))
    (msg : runtime_error) : M A :=
  '(r, out) ← call;
  if r =? VK_SUCCESS then mret out else throw msg.

(** ** Member functions *)

Definition isInitialized (this : Buffer) : bool :=
  negb (logicalDev this =? nullptr)%N.

Definition operator_bool (this : Buffer) : bool := isInitialized this.

Definition getSize (this : Buffer) : Z := wrap32 (Z.of_N (size this)).

Definition getLogicalDev (this : Buffer) : N := logicalDev this.

(** The two creation paths return the result of the allocator together
    with [this] as the allocator's outputs leave it. *)
Definition createVertexBuffer (this : Buffer)
    (bufferUsageFlags memoryUsage memoryFlags : Z) : M (VkResult * Buffer) :=
  let createInfo :=
    {| createInfo_size := size this;
       createInfo_usage := bufferUsageFlags;
       sharingMode := VK_SHARING_MODE_EXCLUSIVE;
       queueFamilyIndexCount := 0;
       pQueueFamilyIndices := None |} in
  let allocInfo :=
    {| allocInfo_usage := memoryUsage; requiredFlags := memoryFlags |} in
  '(r, (buffer, alloc)) ← vmaCreateBuffer (allocator this) createInfo allocInfo;
  mret (r, set_allocation alloc (set_vertexBuffer buffer this)).

Definition createVertexBufferConcurrent (this : Buffer)
    (bufferUsageFlags memoryUsage memoryFlags : Z) (queues : gset N)
    : M (VkResult * Buffer) :=
  let queueVec := in_order queues in
  let createInfo :=
    {| createInfo_size := size this;
       createInfo_usage := bufferUsageFlags;
       sharingMode := VK_SHARING_MODE_CONCURRENT;
       queueFamilyIndexCount := wrap32 (Z.of_nat (base.size queues));
       pQueueFamilyIndices := Some queueVec |} in
  let allocInfo :=
    {| allocInfo_usage := memoryUsage; requiredFlags := memoryFlags |} in
  '(r, (buffer, alloc)) ← vmaCreateBuffer (allocator this) createInfo allocInfo;
  mret (r, set_allocation alloc (set_vertexBuffer buffer this)).

(** The constructor.  The member initialisers set the two pointers and
    the size; the handles are null until the allocator stores them. *)
Definition Buffer_ctor (dev vma physicalDev bufferSize : N)
    (bufferUsageFlags memoryUsage memoryFlags : Z)
    (usedQueues : option (gset N)) : M Buffer :=
  let this :=
    {| logicalDev := dev; allocator := vma; size := bufferSize;
       vertexBuffer := VK_NULL_HANDLE; allocation := VK_NULL_HANDLE |} in
  if has_value usedQueues && bool_decide (1 < base.size (value usedQueues))%nat
  then
    CHECK_VK_SUCCESS
      (createVertexBufferConcurrent this bufferUsageFlags memoryUsage
         memoryFlags (value usedQueues))
      CannotCreateBuffer
  else
    CHECK_VK_SUCCESS
      (createVertexBuffer this bufferUsageFlags memoryUsage memoryFlags)
      CannotCreateBuffer.

Definition Buffer_dtor (this : Buffer) : M () :=
  if isInitialized this
  then vmaDestroyBuffer (allocator this) (vertexBuffer this) (allocation this)
  else mret ().

Definition loadData (this : Buffer) (data : list byte) (offset : N)
    : M VkResult :=
  let inSrc := nullptr in
  '(ret, inSrc) ← vmaMapMemory (allocator this) (allocation this) inSrc;
  (if ret =? VK_SUCCESS
   then memcpy inSrc data (size this);;
        vmaUnmapMemory (allocator this) (allocation this)
   else mret ());;
  mret ret.

Definition cmdCopyDataFrom (this : Buffer) (src transferBuffer : N) : M () :=
  let copyRegion :=
    {| srcOffset := 0; dstOffset := 0; copyRegion_size := size this |} in
  vkCmdCopyBuffer transferBuffer src (vertexBuffer this) [copyRegion].

Definition copyDataFrom (this : Buffer) (src transferQueue transferCmdPool : N)
    : M () :=
  let allocateInfo :=
    {| commandPool := transferCmdPool;
       level := VK_COMMAND_BUFFER_LEVEL_PRIMARY;
       allocateInfo_commandBufferCount := 1 |} in
  let cmdBuffer := VK_NULL_HANDLE in
  cmdBuffer ← CHECK_VK_SUCCESS
    (vkAllocateCommandBuffers (logicalDev this) allocateInfo cmdBuffer)
    FAILED_CANNOT_CREATE_CMD_BUFFER;
  let beginInfo :=
    {| beginInfo_flags := VK_COMMAND_BUFFER_USAGE_ONE_TIME_SUBMIT_BIT |} in
  CHECK_VK_SUCCESS (vkBeginCommandBuffer cmdBuffer beginInfo)
    FAILED_CANNOT_BEGIN_CMD_BUFFER;;
  cmdCopyDataFrom this src cmdBuffer;;
  CHECK_VK_SUCCESS (vkEndCommandBuffer cmdBuffer)
    FAILED_CANNOT_END_CMD_BUFFER;;
  let submitInfo :=
    {| submitInfo_commandBufferCount := 1;
       pCommandBuffers := [cmdBuffer] |} in
  CHECK_VK_SUCCESS (vkQueueSubmit transferQueue [submitInfo] VK_NULL_HANDLE)
    FAILED_CANNOT_SUBMIT_QUEUE;;
  CHECK_VK_SUCCESS (vkQueueWaitIdle transferQueue) FAILED_WAIT_IDLE;;
  vkFreeCommandBuffers (logicalDev this) transferCmdPool [cmdBuffer].

(** The overloads that take the source as a [Buffer]. *)
Definition copyDataFrom_Buffer (this src : Buffer)
    (transferQueue transferCmdPool : N) : M () :=
  copyDataFrom this (vertexBuffer src) transferQueue transferCmdPool.

Definition cmdCopyDataFrom_Buffer (this src : Buffer) (transferBuffer : N)
    : M () :=
  cmdCopyDataFrom this (vertexBuffer src) transferBuffer.

End Api.

End Buffers.

(** * Buffer objects in a program *)

(** Moves involve two objects, which may be the same one, so objects live
    in a store indexed by their address. *)
Module Objects.
Import Buffers.

(** [Buffer(Buffer&& buf)]: the members of the new object at [this] are
    initialised from those of [buf]; moving a pointer, a handle or a
    [size_t] copies it.  The body then nulls [buf.logicalDev]. *)
Definition Buffer_move_ctor (this buf : N) (objs : gmap N Buffer)
    : gmap N Buffer :=
  match objs !! buf with
  | Some b =>
      alter (set_logicalDev nullptr) buf
        (<[this := {| logicalDev := logicalDev b; allocator := allocator b;
                      size := size b; vertexBuffer := vertexBuffer b;
                      allocation := allocation b |}]> objs)
  | None => objs
  end.

(** One member assignment [member = std::move(buf.member)]. *)
Definition assign_member (get : Buffer → N) (set : N → Buffer → Buffer)
    (this buf : N) (objs : gmap N Buffer) : gmap N Buffer :=
  match objs !! buf with
  | Some b => alter (set (get b)) this objs
  | None => objs
  end.

(** [operator=(Buffer&& buf)]: five member assignments in the order of the
    source, then [buf.logicalDev = nullptr]. *)
Definition Buffer_move_assign (this buf : N) (objs : gmap N Buffer)
    : gmap N Buffer :=
  alter (set_logicalDev nullptr) buf
    (assign_member allocation set_allocation this buf
       (assign_member vertexBuffer set_vertexBuffer this buf
          (assign_member size set_size this buf
             (assign_member allocator set_allocator this buf
                (assign_member logicalDev set_logicalDev this buf objs))))).

Record Program : Type := {
  objects : gmap N Buffer;
  world : World
}.

Definition empty_program : Program := {| objects := ∅; world := empty_world |}.

(** What a program can do with buffers.  [this], [buf] and [src] are
    addresses of objects. *)
Inductive Op : Type :=
| New (this dev vma physicalDev bufferSize : N)
    (bufferUsageFlags memoryUsage memoryFlags : Z)
    (usedQueues : option (gset N))
| MoveNew (this buf : N)
| MoveAssign (this buf : N)
| Delete (this : N)
| LoadData (this : N) (data : list byte) (offset : N)
| CopyDataFrom (this src transferQueue transferCmdPool : N)
| CopyDataFromHandle (this src transferQueue transferCmdPool : N)
| CmdCopyDataFrom (this src transferBuffer : N)
| CmdCopyDataFromHandle (this src transferBuffer : N).

Section Run.

Variable api_result : Call → World → VkResult.

(** One operation.  An operation that names an address holding no
    object, or constructs at an address that holds one, is not a step of
    a program, and leaves the state as it is.  A constructor that throws
    leaves no object. *)
Definition step (op : Op) (p : Program) : Program :=
  match op with
  | New this dev vma physicalDev bufferSize usage memoryUsage memoryFlags
        usedQueues =>
      match objects p !! this with
      | Some _ => p
      | None =>
          match Buffer_ctor api_result dev vma physicalDev bufferSize usage
                  memoryUsage memoryFlags usedQueues (world p) with
          | (Ok b, w) => {| objects := <[this := b]> (objects p); world := w |}
          | (Throw _, w) => {| objects := objects p; world := w |}
          end
      end
  | MoveNew this buf =>
      match objects p !! this with
      | Some _ => p
      | None =>
          {| objects := Buffer_move_ctor this buf (objects p);
             world := world p |}
      end
  | MoveAssign this buf =>
      {| objects := Buffer_move_assign this buf (objects p);
         world := world p |}
  | Delete this =>
      match objects p !! this with
      | Some b =>
          {| objects := delete this (objects p);
             world := after (Buffer_dtor b) (world p) |}
      | None => p
      end
  | LoadData this data offset =>
      match objects p !! this with
      | Some b =>
          {| objects := objects p;
             world := after (loadData api_result b data offset) (world p) |}
      | None => p
      end
  | CopyDataFrom this src transferQueue transferCmdPool =>
      match objects p !! this, objects p !! src with
      | Some b, Some s =>
          {| objects := objects p;
             world := after (copyDataFrom_Buffer api_result b s transferQueue
                               transferCmdPool) (world p) |}
      | _, _ => p
      end
  | CopyDataFromHandle this src transferQueue transferCmdPool =>
      match objects p !! this with
      | Some b =>
          {| objects := objects p;
             world := after (copyDataFrom api_result b src transferQueue
                               transferCmdPool) (world p) |}
      | None => p
      end
  | CmdCopyDataFrom this src transferBuffer =>
      match objects p !! this, objects p !! src with
      | Some b, Some s =>
          {| objects := objects p;
             world := after (cmdCopyDataFrom_Buffer b s transferBuffer)
                        (world p) |}
      | _, _ => p
      end
  | CmdCopyDataFromHandle this src transferBuffer =>
      match objects p !! this with
      | Some b =>
          {| objects := objects p;
             world := after (cmdCopyDataFrom b src transferBuffer) (world p) |}
      | None => p
      end
  end.

Definition run (ops : list Op) (p : Program) : Program :=
  foldl (λ p op, step op p) p ops.

End Run.

(** The handle pairs released so far, oldest first. *)
Definition released (w : World) : list (N * N) :=
  omap (λ c, match c with
             | vmaDestroyBuffer_call _ buffer alloc => Some (buffer, alloc)
             | _ => None
             end) (calls w).

(** The ownership discipline of a program state: the pair held by an
    initialised object is a live buffer with its allocation; no two
    initialised objects hold the same buffer; live and released handles
    have been issued; released buffers are no longer live, and none has
    been released twice. *)
Definition sole_owners (p : Program) : Prop :=
  (∀ a b, objects p !! a = Some b → isInitialized b = true →
     binding (world p) !! vertexBuffer b = Some (allocation b))
  ∧ (∀ a1 a2 b1 b2,
       objects p !! a1 = Some b1 → objects p !! a2 = Some b2 →
       isInitialized b1 = true → isInitialized b2 = true →
       vertexBuffer b1 = vertexBuffer b2 → a1 = a2)
  ∧ (∀ vb al, binding (world p) !! vb = Some al →
       (vb ≤ last_handle (world p))%N)
  ∧ (∀ vb al, (vb, al) ∈ released (world p) →
       (vb ≤ last_handle (world p))%N ∧ binding (world p) !! vb = None)
  ∧ NoDup (released (world p)).*1.

(** A live buffer that no initialised object holds. *)
Definition orphaned (vb : N) (p : Program) : Prop :=
  is_Some (binding (world p) !! vb)
  ∧ (vb ≤ last_handle (world p))%N
  ∧ ∀ a b, objects p !! a = Some b → isInitialized b = true →
      vertexBuffer b ≠ vb.

(** What the operations that construct, move and destroy nothing keep. *)
Definition keeps_buffers (w w' : World) : Prop :=
  binding w' = binding w
  ∧ released w' = released w
  ∧ (last_handle w ≤ last_handle w')%N.

End Objects.

(** * What the statements below speak of *)

Module Scenario.
Import Buffers Objects.

(** A host system on which every call succeeds. *)
Definition always_succeeds : Call → World → VkResult := λ _ _, VK_SUCCESS.

(** Exclusive sharing: no queue family is listed. *)
Definition exclusive_sharing (createInfo : VkBufferCreateInfo) : Prop :=
  sharingMode createInfo = VK_SHARING_MODE_EXCLUSIVE
  ∧ queueFamilyIndexCount createInfo = 0
  ∧ pQueueFamilyIndices createInfo = None.

(** Concurrent sharing over [queues]: the array lists each index of the set
    once and nothing else, and the count is the length of the array as a
    [uint32_t]: whenever the number of indices fits 32 bits, the count is
    that number, so that the API reads the whole array and no further. *)
Definition concurrent_sharing (createInfo : VkBufferCreateInfo)
    (queues : gset N) : Prop :=
  sharingMode createInfo = VK_SHARING_MODE_CONCURRENT
  ∧ ∃ queueVec,
      pQueueFamilyIndices createInfo = Some queueVec
      ∧ NoDup queueVec
      ∧ list_to_set queueVec = queues
      ∧ queueFamilyIndexCount createInfo
        = wrap32 (Z.of_nat (length queueVec))
      ∧ (Z.of_nat (base.size queues) < uint32_max →
         queueFamilyIndexCount createInfo = Z.of_nat (length queueVec)
         ∧ listed_queue_families createInfo = queueVec).

(** A host system that refuses to map memory and grants everything else:
    what a buffer created without host-visible memory meets. *)
Definition map_refused : Call → World → VkResult := λ c _,
  match c with
  | vmaMapMemory_call _ _ => VK_ERROR_MEMORY_MAP_FAILED
  | _ => VK_SUCCESS
  end.

(** The calls made between world [w] and a later world [w']. *)
Definition calls_since (w w' : World) : list Call :=
  drop (length (calls w)) (calls w').

(** A host system on which recording cannot begin. *)
Definition begin_refused : Call → World → VkResult := λ c _,
  match c with
  | vkBeginCommandBuffer_call _ _ => -1
  | _ => VK_SUCCESS
  end.

(** The region [cmdCopyDataFrom] records for a buffer of [n] bytes. *)
Definition whole_buffer (n : N) : VkBufferCopy :=
  {| srcOffset := 0; dstOffset := 0; copyRegion_size := n |}.

(** The calls of a complete one-shot transfer into [this] through command
    buffer [cb], in order. *)
Definition transfer_calls (this : Buffer) (src queue pool cb : N)
    : list Call :=
  [ vkAllocateCommandBuffers_call (logicalDev this)
      {| commandPool := pool; level := VK_COMMAND_BUFFER_LEVEL_PRIMARY;
         allocateInfo_commandBufferCount := 1 |};
    vkBeginCommandBuffer_call cb
      {| beginInfo_flags := VK_COMMAND_BUFFER_USAGE_ONE_TIME_SUBMIT_BIT |};
    vkCmdCopyBuffer_call cb src (vertexBuffer this) [whole_buffer (size this)];
    vkEndCommandBuffer_call cb;
    vkQueueSubmit_call queue
      [{| submitInfo_commandBufferCount := 1; pCommandBuffers := [cb] |}]
      VK_NULL_HANDLE;
    vkQueueWaitIdle_call queue;
    vkFreeCommandBuffers_call (logicalDev this) pool [cb] ].

(** The copies recorded by a list of calls: command buffer, source,
    destination and regions of each [vkCmdCopyBuffer]. *)
Definition recorded_copies (cs : list Call)
    : list (N * N * N * list VkBufferCopy) :=
  omap (λ c, match c with
             | vkCmdCopyBuffer_call cb srcBuffer dstBuffer regions =>
                 Some (cb, srcBuffer, dstBuffer, regions)
             | _ => None
             end) cs.

Definition is_free_call (c : Call) : bool :=
  match c with
  | vkFreeCommandBuffers_call _ _ _ => true
  | _ => false
  end.

(** The five checked calls of a transfer into [this], in order, each with
    the world it is made in once the steps before it have succeeded, and
    the error the transfer passes to the check on it.  The worlds are
    those the device leaves: no part of [copyDataFrom] enters them. *)
Definition checked_steps (api_result : Call → World → VkResult)
    (this : Buffer) (src queue pool : N) (w : World)
    : list (Call * World * runtime_error) :=
  let cb := N.succ (last_handle w) in
  let allocateInfo :=
    {| commandPool := pool; level := VK_COMMAND_BUFFER_LEVEL_PRIMARY;
       allocateInfo_commandBufferCount := 1 |} in
  let beginInfo :=
    {| beginInfo_flags := VK_COMMAND_BUFFER_USAGE_ONE_TIME_SUBMIT_BIT |} in
  let submitInfo :=
    {| submitInfo_commandBufferCount := 1; pCommandBuffers := [cb] |} in
  let w1 :=
    after (vkAllocateCommandBuffers api_result (logicalDev this) allocateInfo
             VK_NULL_HANDLE) w in
  let w2 := after (vkBeginCommandBuffer api_result cb beginInfo) w1 in
  let w3 :=
    after (vkCmdCopyBuffer cb src (vertexBuffer this)
             [whole_buffer (size this)]) w2 in
  let w4 := after (vkEndCommandBuffer api_result cb) w3 in
  let w5 :=
    after (vkQueueSubmit api_result queue [submitInfo] VK_NULL_HANDLE) w4 in
  [ (vkAllocateCommandBuffers_call (logicalDev this) allocateInfo, w,
     FAILED_CANNOT_CREATE_CMD_BUFFER);
    (vkBeginCommandBuffer_call cb beginInfo, w1,
     FAILED_CANNOT_BEGIN_CMD_BUFFER);
    (vkEndCommandBuffer_call cb, w3, FAILED_CANNOT_END_CMD_BUFFER);
    (vkQueueSubmit_call queue [submitInfo] VK_NULL_HANDLE, w4,
     FAILED_CANNOT_SUBMIT_QUEUE);
    (vkQueueWaitIdle_call queue, w5, FAILED_WAIT_IDLE) ].

(** The error of the first step that the host system answers with
    anything but [VK_SUCCESS]; [None] when every step succeeds. *)
Fixpoint first_failure (api_result : Call → World → VkResult)
    (steps : list (Call * World * runtime_error)) : option runtime_error :=
  match steps with
  | [] => None
  | (c, w, e) :: rest =>
      if api_result c w =? VK_SUCCESS then first_failure api_result rest
      else Some e
  end.

(** How many calls of the transfer have been made when it throws [e]: the
    call of the failing step is the last one.  Zero for the errors the
    transfer does not throw. *)
Definition calls_until (e : runtime_error) : nat :=
  match e with
  | FAILED_CANNOT_CREATE_CMD_BUFFER => 1
  | FAILED_CANNOT_BEGIN_CMD_BUFFER => 2
  | FAILED_CANNOT_END_CMD_BUFFER => 4
  | FAILED_CANNOT_SUBMIT_QUEUE => 5
  | FAILED_WAIT_IDLE => 6
  | CannotFindSuitableMemoryType | CannotCreateBuffer => 0
  end.

(** Two memories of the same shape: the same allocations, of the same
    lengths. *)
Definition same_shape (mem mem' : gmap N (list byte)) : Prop :=
  ∀ a, length <$> mem' !! a = length <$> mem !! a.

(** A program that has constructed two four-byte buffers, at addresses
    10 and 11, on device 1 with allocator 2. *)
Definition two_buffers : Program :=
  run always_succeeds
    [New 10 1 2 3 4 32 0 6 None; New 11 1 2 3 4 32 0 6 None] empty_program.

(** The two objects: the allocator issued buffer 1 with allocation 2, then
    buffer 3 with allocation 4. *)
Definition first_buffer : Buffer :=
  {| logicalDev := 1; allocator := 2; size := 4;
     vertexBuffer := 1; allocation := 2 |}.

Definition second_buffer : Buffer :=
  {| logicalDev := 1; allocator := 2; size := 4;
     vertexBuffer := 3; allocation := 4 |}.

Definition five_bytes : list byte := [x61; x62; x63; x64; x65].

(** The world once [five_bytes] has been loaded into the second buffer. *)
Definition second_loaded : World :=
  after (loadData always_succeeds second_buffer five_bytes 0)
    (world two_buffers).

(** An operation that ends the stay of a value in the object at [this]:
    its destruction, or a move assignment into it. *)
Definition overwrites (this : N) (op : Op) : bool :=
  match op with
  | MoveAssign this' _ | Delete this' => bool_decide (this' = this)
  | _ => false
  end.

End Scenario.

(** * The uniform-buffer specialisation *)

Module Uniform.
Import Buffers.

(** [UniformObjBuffer<T>::loadData(data, offset)] of [UniformObjects.h]
    hands the address of the payload object to [Buffer::loadData]; [data]
    is the object representation of the payload, its [sizeof(T)] bytes. *)
Definition UniformObjBuffer_loadData (api_result : Call → World → VkResult)
    (this : Buffer) (data : list byte) (offset : N) : M VkResult :=
  loadData api_result this data offset.

End Uniform.

(** * Backing of the live buffers *)

Module Backing.
Import Buffers Objects.

(** Every live buffer is bound to an allocation that has been issued and
    has memory, and no two live buffers share an allocation. *)
Definition well_backed (w : World) : Prop :=
  (∀ vb al, binding w !! vb = Some al →
     (vb ≤ last_handle w)%N ∧ (al ≤ last_handle w)%N
     ∧ is_Some (memory w !! al))
  ∧ (∀ vb1 vb2 al, binding w !! vb1 = Some al → binding w !! vb2 = Some al →
       vb1 = vb2)
  ∧ (∀ al, is_Some (memory w !! al) → (al ≤ last_handle w)%N).

(** Two worlds with the same allocations, whatever bytes they hold. *)
Definition same_allocations (w w' : World) : Prop :=
  ∀ al, is_Some (memory w' !! al) ↔ is_Some (memory w !! al).

End Backing.

(** * Properties of the selector *)

Section SelectorFacts.
Import Selector.

Lemma wrap32_shiftl_pow2 (i : N) :
  wrap32 (Z.shiftl (wrap32 (2 ^ Z.of_N i)) 1) = wrap32 (2 ^ Z.of_N (N.succ i)).
Proof.
  unfold wrap32. rewrite Z.shiftl_mul_pow2 by lia.
  rewrite N2Z.inj_succ, Z.pow_succ_r by lia.
  change (2 ^ 1) with 2.
  rewrite Z.mul_mod_idemp_l by (unfold uint32_max; lia).
  f_equal; lia.
Qed.

(** Under a 32-bit filter the masked test reads bit [i], also once the
    mask has been shifted out to zero. *)
Lemma filter_mask_bit (filter : Z) (i : N) :
  is_uint32 filter →
  negb (Z.land filter (wrap32 (2 ^ Z.of_N i)) =? 0)
  = Z.testbit filter (Z.of_N i).
Proof.
  intros [Hlo Hhi]. unfold wrap32, uint32_max in *.
  destruct (decide (Z.of_N i < 32)) as [Hi|Hi].
  - rewrite Z.mod_small
      by (split; [lia | apply Z.pow_lt_mono_r; lia]).
    destruct (Z.testbit filter (Z.of_N i)) eqn:Hb.
    + apply negb_true_iff, Z.eqb_neq. intros Hz.
      assert (Z.testbit (Z.land filter (2 ^ Z.of_N i)) (Z.of_N i) = true) as Ht.
      { rewrite Z.land_spec, Hb, Z.pow2_bits_true by lia. done. }
      rewrite Hz, Z.bits_0 in Ht. done.
    + apply negb_false_iff, Z.eqb_eq. apply Z.bits_inj'. intros n Hn.
      rewrite Z.land_spec, Z.bits_0.
      destruct (decide (n = Z.of_N i)) as [->|Hne].
      * by rewrite Hb.
      * rewrite (Z.pow2_bits_false (Z.of_N i) n) by lia.
        by rewrite andb_false_r.
  - assert (2 ^ Z.of_N i mod 2 ^ 32 = 0) as ->.
    { replace (Z.of_N i) with (32 + (Z.of_N i - 32)) by lia.
      rewrite Z.pow_add_r by lia. rewrite Z.mul_comm. apply Z_mod_mult. }
    rewrite Z.land_0_r. simpl.
    symmetry. destruct (decide (filter = 0)) as [->|Hnz].
    + apply Z.bits_0.
    + apply Z.bits_above_log2; [lia|].
      apply Z.log2_lt_pow2; [lia|].
      eapply Z.lt_le_trans; [exact Hhi|].
      apply Z.pow_le_mono_r; lia.
Qed.

Lemma getMemoryType_from_spec (l : list Z) (properties filter : Z) :
  is_uint32 filter →
  ∀ (i : N),
    match getMemoryType_from l properties filter i (wrap32 (2 ^ Z.of_N i)) with
    | Ok k =>
        (i ≤ k)%N ∧ Z.testbit filter (Z.of_N k) = true
        ∧ (∃ flags, l !! N.to_nat (k - i) = Some flags
                    ∧ Z.land flags properties = properties)
        ∧ ∀ j flags, (i ≤ j < k)%N → l !! N.to_nat (j - i) = Some flags →
            ¬ (Z.testbit filter (Z.of_N j) = true
               ∧ Z.land flags properties = properties)
    | Throw e =>
        e = CannotFindSuitableMemoryType
        ∧ ∀ j flags, (i ≤ j)%N → l !! N.to_nat (j - i) = Some flags →
            ¬ (Z.testbit filter (Z.of_N j) = true
               ∧ Z.land flags properties = properties)
    end.
Proof.
  intros Hf. induction l as [|t rest IH]; intros i; simpl.
  - split; [done|]. intros j flags _ Hl. by rewrite lookup_nil in Hl.
  - rewrite filter_mask_bit by done.
    destruct (Z.testbit filter (Z.of_N i) && (Z.land t properties =? properties))
      eqn:Hhit.
    + apply andb_true_iff in Hhit as [Hb Hp%Z.eqb_eq].
      split; [lia|]. split; [done|]. split.
      * exists t. by rewrite N.sub_diag.
      * intros j flags Hj. lia.
    + rewrite wrap32_shiftl_pow2. specialize (IH (N.succ i)).
      assert (Hmiss : ¬ (Z.testbit filter (Z.of_N i) = true
                         ∧ Z.land t properties = properties)).
      { intros [Hb Hp]. rewrite Hb in Hhit. simpl in Hhit.
        apply Z.eqb_neq in Hhit. done. }
      destruct (getMemoryType_from rest properties filter (N.succ i) _)
        as [k|e].
      * destruct IH as (Hik & Hb & (flags & Hl & Hp) & Hmin).
        split; [lia|]. split; [done|]. split.
        { exists flags. split; [|done].
          replace (N.to_nat (k - i)) with (S (N.to_nat (k - N.succ i))) by lia.
          done. }
        intros j fl Hj Hl'.
        destruct (decide (j = i)) as [->|Hne].
        { rewrite N.sub_diag in Hl'. simpl in Hl'. by simplify_eq. }
        apply (Hmin j fl); [lia|].
        replace (N.to_nat (j - i)) with (S (N.to_nat (j - N.succ i))) in Hl' by lia.
        done.
      * destruct IH as (-> & Hnone). split; [done|].
        intros j fl Hj Hl'.
        destruct (decide (j = i)) as [->|Hne].
        { rewrite N.sub_diag in Hl'. simpl in Hl'. by simplify_eq. }
        apply (Hnone j fl); [lia|].
        replace (N.to_nat (j - i)) with (S (N.to_nat (j - N.succ i))) in Hl' by lia.
        done.
Qed.

(** C1.  For every list of memory types, set of required flags and
    32-bit filter mask, [getMemoryType] returns index [i] exactly when
    [i] is the lowest index whose filter bit is set and whose property
    flags contain the required flags (their bitwise AND with the
    required flags equals the required flags); it throws, with the
    memory-type-unavailable error, exactly when no such index exists. *)
Theorem getMemoryType_lowest_match (memoryTypes : list Z)
    (properties filter : Z) :
  is_uint32 filter →
  (∀ i, getMemoryType memoryTypes properties filter = Ok i
        ↔ lowest_acceptable memoryTypes properties filter i)
  ∧ (∀ e, getMemoryType memoryTypes properties filter = Throw e
          ↔ e = CannotFindSuitableMemoryType
            ∧ ∀ j, ¬ acceptable memoryTypes properties filter j).
Proof.
  intros Hf.
  pose proof (getMemoryType_from_spec memoryTypes properties filter Hf 0%N)
    as Hspec.
  change (wrap32 (2 ^ Z.of_N 0)) with 1 in Hspec.
  unfold getMemoryType, lowest_acceptable, acceptable.
  destruct (getMemoryType_from memoryTypes properties filter 0%N 1) as [k|e0].
  - destruct Hspec as (_ & Hb & (flags & Hl & Hp) & Hmin).
    rewrite N.sub_0_r in Hl.
    assert (Hlow : ∀ j, Z.testbit filter (Z.of_N j) = true
              ∧ (∃ fl, memoryTypes !! N.to_nat j = Some fl
                       ∧ Z.land fl properties = properties) → (k ≤ j)%N).
    { intros j (Hbj & fl & Hlj & Hpj).
      destruct (decide (k ≤ j)%N) as [|Hlt]; [done|]. exfalso.
      apply (Hmin j fl); [lia| by rewrite N.sub_0_r |done]. }
    split.
    + intros i. split.
      * intros [= <-]. split; [|exact Hlow]. split; [done|]. by exists flags.
      * intros [Hacc Hle]. f_equal.
        assert (k ≤ i)%N by (by apply Hlow).
        assert (i ≤ k)%N by (apply Hle; split; [done|by exists flags]).
        lia.
    + intros e. split; [done|]. intros [_ Hnone]. exfalso.
      apply (Hnone k). split; [done|]. by exists flags.
  - destruct Hspec as (-> & Hnone).
    assert (Hno : ∀ j, ¬ (Z.testbit filter (Z.of_N j) = true
              ∧ (∃ fl, memoryTypes !! N.to_nat j = Some fl
                       ∧ Z.land fl properties = properties))).
    { intros j (Hbj & fl & Hlj & Hpj).
      apply (Hnone j fl); [lia| by rewrite N.sub_0_r |done]. }
    split.
    + intros i. split; [done|]. intros [Hacc _]. by apply Hno in Hacc.
    + intros e. split.
      * intros [= <-]. done.
      * intros [-> _]. done.
Qed.

(** The selector at a device whose types 0 and 1 lack a required flag or
    are filtered out: type 2 is chosen. *)
Lemma getMemoryType_lowest_match_witness :
  is_uint32 6
  ∧ getMemoryType [7; 1; 6; 6] 6 6 = Ok 2%N
  ∧ lowest_acceptable [7; 1; 6; 6] 6 6 2%N.
Proof.
  assert (Hf : is_uint32 6) by (unfold is_uint32, uint32_max; lia).
  split; [exact Hf|].
  assert (Hrun : getMemoryType [7; 1; 6; 6] 6 6 = Ok 2%N) by reflexivity.
  split; [exact Hrun|].
  exact (proj1 (proj1 (getMemoryType_lowest_match [7; 1; 6; 6] 6 6 Hf) 2%N) Hrun).
Defined.

End SelectorFacts.

(** * Properties of construction *)

Section ConstructionFacts.
Import Buffers Objects Scenario.

Variable api_result : Call → World → VkResult.

Lemma in_order_NoDup (queues : gset N) : NoDup (in_order queues).
Proof.
  unfold in_order. rewrite merge_sort_Permutation. apply NoDup_elements.
Qed.

Lemma in_order_set (queues : gset N) : list_to_set (in_order queues) = queues.
Proof.
  unfold in_order. rewrite merge_sort_Permutation.
  apply list_to_set_elements_L.
Qed.

Lemma in_order_length (queues : gset N) :
  length (in_order queues) = base.size queues.
Proof. unfold in_order. by rewrite merge_sort_Permutation. Qed.

Lemma in_order_sorted (queues : gset N) : Sorted N.le (in_order queues).
Proof. apply (Sorted_merge_sort N.le). Qed.

(** What either creation path leaves behind: one call, and on success a
    buffer of the declared size bound to fresh memory of that size. *)
Lemma vmaCreateBuffer_calls vma createInfo allocInfo w :
  calls (after (vmaCreateBuffer api_result vma createInfo allocInfo) w)
  = calls w ++ [vmaCreateBuffer_call vma createInfo allocInfo].
Proof.
  unfold after, vmaCreateBuffer.
  destruct (api_result _ w =? VK_SUCCESS); reflexivity.
Qed.

(** C2.  Every construction makes exactly one call, the allocator's
    creation call, for the size given.  If the optional set of queue
    families is present and holds more than one index, the call asks
    for concurrent sharing and lists exactly the indices of the set:
    each once in the array, with a count equal to their number;
    otherwise (no set, or a set of size 0 or 1) it asks for exclusive
    sharing, with a count of 0 and no array. *)
Theorem Buffer_ctor_sharing_mode (dev vma physicalDev bufferSize : N)
    (bufferUsageFlags memoryUsage memoryFlags : Z)
    (usedQueues : option (gset N)) (w : World) :
  ∃ createInfo allocInfo,
    calls (after (Buffer_ctor api_result dev vma physicalDev bufferSize
                    bufferUsageFlags memoryUsage memoryFlags usedQueues) w)
    = calls w ++ [vmaCreateBuffer_call vma createInfo allocInfo]
    ∧ createInfo_size createInfo = bufferSize
    ∧ match usedQueues with
      | Some queues =>
          if decide (1 < base.size queues)%nat
          then concurrent_sharing createInfo queues
          else exclusive_sharing createInfo
      | None => exclusive_sharing createInfo
      end.
Proof.
  unfold Buffer_ctor, has_value, value.
  destruct usedQueues as [queues|]; simpl.
  - destruct (decide (1 < base.size queues)%nat) as [Hgt|Hle].
    + rewrite bool_decide_eq_true_2 by done.
      eexists _, _. split; [|split].
      * unfold after, CHECK_VK_SUCCESS, createVertexBufferConcurrent,
          vmaCreateBuffer, mbind, M_bind, mret, M_ret, throw. simpl.
        destruct (api_result _ w =? VK_SUCCESS) eqn:Hr; simpl;
          rewrite ?Hr; reflexivity.
      * reflexivity.
      * split; [reflexivity|]. exists (in_order queues).
        split; [reflexivity|]. split; [apply in_order_NoDup|].
        split; [apply in_order_set|].
        split; [by simpl; rewrite in_order_length|].
        intros Hfit. split.
        { simpl. unfold wrap32. rewrite Z.mod_small by lia.
          by rewrite in_order_length. }
        unfold listed_queue_families, wrap32. simpl.
        rewrite Z.mod_small by lia. rewrite Nat2Z.id.
        rewrite <- in_order_length. apply firstn_all.
    + rewrite bool_decide_eq_false_2 by done.
      eexists _, _. split; [|split].
      * unfold after, CHECK_VK_SUCCESS, createVertexBuffer,
          vmaCreateBuffer, mbind, M_bind, mret, M_ret, throw. simpl.
        destruct (api_result _ w =? VK_SUCCESS) eqn:Hr; simpl;
          rewrite ?Hr; reflexivity.
      * reflexivity.
      * done.
  - eexists _, _. split; [|split].
    + unfold after, CHECK_VK_SUCCESS, createVertexBuffer,
        vmaCreateBuffer, mbind, M_bind, mret, M_ret, throw. simpl.
      destruct (api_result _ w =? VK_SUCCESS) eqn:Hr; simpl;
        rewrite ?Hr; reflexivity.
    + reflexivity.
    + done.
Qed.

End ConstructionFacts.

(** * Properties of moves *)

Section MoveFacts.
Import Buffers Objects.

Implicit Types (objs : gmap N Buffer) (b s : Buffer).

Lemma Buffer_eta b :
  {| logicalDev := logicalDev b; allocator := allocator b; size := size b;
     vertexBuffer := vertexBuffer b; allocation := allocation b |} = b.
Proof. by destruct b. Qed.

Lemma assign_member_distinct get set this buf objs s :
  objs !! buf = Some s →
  assign_member get set this buf objs = alter (set (get s)) this objs.
Proof. unfold assign_member. by intros ->. Qed.

Lemma assign_member_self get set this objs :
  (∀ b, set (get b) b = b) →
  assign_member get set this this objs = objs.
Proof.
  intros Hid. unfold assign_member.
  destruct (objs !! this) as [b|] eqn:Hb; [|done].
  apply alter_id. intros x Hx. rewrite Hb in Hx. by simplify_eq.
Qed.

Lemma assign_member_lookup_ne get set this buf objs a :
  a ≠ this → assign_member get set this buf objs !! a = objs !! a.
Proof.
  intros Hne. unfold assign_member.
  destruct (objs !! buf); [|done]. by rewrite lookup_alter_ne.
Qed.

(** After a move assignment between two objects, the target holds every
    member of the source and the source has lost its device. *)
Lemma Buffer_move_assign_distinct this buf objs b s :
  this ≠ buf → objs !! this = Some b → objs !! buf = Some s →
  Buffer_move_assign this buf objs !! this = Some s
  ∧ Buffer_move_assign this buf objs !! buf
    = Some (set_logicalDev nullptr s).
Proof.
  intros Hne Hb Hs. unfold Buffer_move_assign.
  rewrite (assign_member_distinct logicalDev _ this buf objs s) by done.
  rewrite (assign_member_distinct allocator _ this buf _ s)
    by (by rewrite !lookup_alter_ne).
  rewrite (assign_member_distinct size _ this buf _ s)
    by (by rewrite !lookup_alter_ne).
  rewrite (assign_member_distinct vertexBuffer _ this buf _ s)
    by (by rewrite !lookup_alter_ne).
  rewrite (assign_member_distinct allocation _ this buf _ s)
    by (by rewrite !lookup_alter_ne).
  split.
  - rewrite lookup_alter_ne by done. rewrite !lookup_alter_eq, Hb. simpl.
    by destruct s.
  - rewrite lookup_alter_eq. rewrite !lookup_alter_ne by done.
    by rewrite Hs.
Qed.

(** Assigning an object to itself only nulls its device. *)
Lemma Buffer_move_assign_self this objs :
  Buffer_move_assign this this objs = alter (set_logicalDev nullptr) this objs.
Proof.
  unfold Buffer_move_assign.
  rewrite !assign_member_self; [done|by intros []..].
Qed.

Lemma Buffer_move_assign_other this buf objs a :
  a ≠ this → a ≠ buf →
  Buffer_move_assign this buf objs !! a = objs !! a.
Proof.
  intros H1 H2. unfold Buffer_move_assign.
  rewrite lookup_alter_ne by done.
  by rewrite !assign_member_lookup_ne.
Qed.

(** An absent source leaves the store as it is. *)
Lemma Buffer_move_assign_absent this buf objs :
  objs !! buf = None → Buffer_move_assign this buf objs = objs.
Proof.
  intros Hn. unfold Buffer_move_assign, assign_member. rewrite !Hn.
  apply alter_id. intros x Hx. rewrite Hn in Hx. done.
Qed.

Lemma Buffer_move_assign_source this buf objs s :
  this ≠ buf → objs !! buf = Some s →
  Buffer_move_assign this buf objs !! buf = Some (set_logicalDev nullptr s).
Proof.
  intros Hne Hs. unfold Buffer_move_assign.
  rewrite lookup_alter_eq. rewrite !assign_member_lookup_ne by done.
  by rewrite Hs.
Qed.

Lemma Buffer_move_ctor_distinct this buf objs s :
  this ≠ buf → objs !! buf = Some s →
  Buffer_move_ctor this buf objs !! this = Some s
  ∧ Buffer_move_ctor this buf objs !! buf = Some (set_logicalDev nullptr s).
Proof.
  intros Hne Hs. unfold Buffer_move_ctor. rewrite Hs. split.
  - rewrite lookup_alter_ne by done. rewrite lookup_insert_eq.
    by rewrite Buffer_eta.
  - rewrite lookup_alter_eq, lookup_insert_ne by done. by rewrite Hs.
Qed.

Lemma Buffer_move_ctor_other this buf objs a :
  a ≠ this → a ≠ buf → Buffer_move_ctor this buf objs !! a = objs !! a.
Proof.
  intros H1 H2. unfold Buffer_move_ctor.
  destruct (objs !! buf); [|done].
  by rewrite lookup_alter_ne, lookup_insert_ne.
Qed.

Lemma Buffer_move_ctor_absent this buf objs :
  objs !! buf = None → Buffer_move_ctor this buf objs = objs.
Proof. unfold Buffer_move_ctor. by intros ->. Qed.

End MoveFacts.

(** * Properties of the size *)

Section SizeFacts.
Import Buffers Objects Scenario.

Variable api_result : Call → World → VkResult.

(** A constructor that returns has kept the size and the two pointers it
    was given. *)
Lemma Buffer_ctor_members dev vma physicalDev bufferSize bufferUsageFlags
    memoryUsage memoryFlags usedQueues w b w' :
  Buffer_ctor api_result dev vma physicalDev bufferSize bufferUsageFlags
    memoryUsage memoryFlags usedQueues w = (Ok b, w') →
  logicalDev b = dev ∧ allocator b = vma ∧ size b = bufferSize.
Proof.
  unfold Buffer_ctor, CHECK_VK_SUCCESS, createVertexBufferConcurrent,
    createVertexBuffer, vmaCreateBuffer, mbind, M_bind, mret, M_ret, throw.
  destruct (has_value usedQueues && _); simpl;
    destruct (api_result _ w =? VK_SUCCESS) eqn:Hr; simpl; rewrite ?Hr;
    intros [= <- <-]; done.
Qed.

Lemma step_keeps_size op p this b :
  overwrites this op = false → objects p !! this = Some b →
  ∃ b', objects (step api_result op p) !! this = Some b'
        ∧ size b' = size b.
Proof.
  intros Hop Hb.
  destruct op as [this' dev vma pd sz us mu mf uq | this' buf | this' buf
                 | this' | this' data off | this' src q pool
                 | this' src q pool | this' src cb | this' src cb]; simpl.
  - destruct (objects p !! this') eqn:Ht; [by eauto|].
    assert (this ≠ this') by (intros ->; congruence).
    destruct (Buffer_ctor _ _ _ _ _ _ _ _ _ _) as [[b0|e] w0]; simpl.
    + rewrite lookup_insert_ne by done. eauto.
    + eauto.
  - destruct (objects p !! this') eqn:Ht; [by eauto|]. simpl.
    assert (this ≠ this') by (intros ->; congruence).
    destruct (objects p !! buf) as [s|] eqn:Hs.
    + destruct (decide (buf = this)) as [->|Hne].
      * destruct (Buffer_move_ctor_distinct this' this (objects p) b)
          as [_ ->]; [done..|]. eauto.
      * rewrite Buffer_move_ctor_other by done. eauto.
    + rewrite Buffer_move_ctor_absent by done. eauto.
  - simpl in Hop. apply bool_decide_eq_false in Hop.
    destruct (decide (buf = this)) as [->|Hne].
    + rewrite (Buffer_move_assign_source this' this (objects p) b) by done.
      eauto.
    + rewrite Buffer_move_assign_other by done. eauto.
  - simpl in Hop. apply bool_decide_eq_false in Hop.
    destruct (objects p !! this') eqn:Ht; [|by eauto]. simpl.
    rewrite lookup_delete_ne by done. eauto.
  - destruct (objects p !! this'); eauto.
  - destruct (objects p !! this'); [|by eauto].
    destruct (objects p !! src); eauto.
  - destruct (objects p !! this'); eauto.
  - destruct (objects p !! this'); [|by eauto].
    destruct (objects p !! src); eauto.
  - destruct (objects p !! this'); eauto.
Qed.

Lemma run_keeps_size ops p this b :
  Forall (λ op, overwrites this op = false) ops →
  objects p !! this = Some b →
  ∃ b', objects (run api_result ops p) !! this = Some b'
        ∧ size b' = size b.
Proof.
  intros Hops. revert p b.
  induction Hops as [|op ops Hop _ IH]; intros p b Hb; simpl.
  - eauto.
  - destruct (step_keeps_size op p this b Hop Hb) as (b1 & Hb1 & Hsz).
    destruct (IH _ _ Hb1) as (b' & Hb' & Hsz').
    exists b'. split; [done|congruence].
Qed.

(** C8, as the code has it.  A buffer whose constructor returned has the
    size it was constructed with, and keeps it, at whatever address it
    lives, through every sequence of operations that neither destroys
    it nor move-assigns into it; a move assignment into it from another
    object gives it the size of the source.  [getSize] returns the size
    reduced modulo 2^32, which is the size itself whenever that is below
    2^32. *)
Theorem size_fixed_by_construction (dev vma physicalDev bufferSize : N)
    (bufferUsageFlags memoryUsage memoryFlags : Z)
    (usedQueues : option (gset N)) (w w' : World) (b : Buffer) :
  Buffer_ctor api_result dev vma physicalDev bufferSize bufferUsageFlags
    memoryUsage memoryFlags usedQueues w = (Ok b, w') →
  size b = bufferSize
  ∧ getSize b = wrap32 (Z.of_N bufferSize)
  ∧ (Z.of_N bufferSize < uint32_max → getSize b = Z.of_N bufferSize)
  ∧ (∀ p this ops,
       objects p !! this = Some b →
       Forall (λ op, overwrites this op = false) ops →
       ∃ b', objects (run api_result ops p) !! this = Some b'
             ∧ size b' = bufferSize)
  ∧ (∀ p this buf s,
       this ≠ buf → objects p !! this = Some b → objects p !! buf = Some s →
       ∃ b', objects (step api_result (MoveAssign this buf) p) !! this
             = Some b'
             ∧ size b' = size s).
Proof.
  intros Hctor.
  destruct (Buffer_ctor_members _ _ _ _ _ _ _ _ _ _ _ Hctor) as (_ & _ & Hsz).
  split; [done|]. split; [by unfold getSize; rewrite Hsz|].
  split.
  { intros Hfit. unfold getSize, wrap32. rewrite Hsz.
    apply Z.mod_small. lia. }
  split.
  - intros p this ops Hb Hops.
    destruct (run_keeps_size ops p this b Hops Hb) as (b' & Hb' & Hsz').
    exists b'. split; [done|congruence].
  - intros p this buf s Hne Hb Hs. exists s. split; [|done]. simpl.
    by destruct (Buffer_move_assign_distinct this buf (objects p) b s)
      as [-> _].
Qed.

End SizeFacts.

(** * The scenarios of the specification, run *)

Section Scenarios.
Import Buffers Objects Scenario.

(** 256 bytes, host-visible and host-coherent flags, no queue set:
    exclusive sharing, an initialised buffer, [getSize] 256. *)
Example ctor_256_exclusive :
  ∃ b w',
    Buffer_ctor always_succeeds 1 2 3 256 32 0 6 None empty_world = (Ok b, w')
    ∧ isInitialized b = true ∧ getSize b = 256
    ∧ calls w'
      = [vmaCreateBuffer_call 2
           {| createInfo_size := 256; createInfo_usage := 32;
              sharingMode := VK_SHARING_MODE_EXCLUSIVE;
              queueFamilyIndexCount := 0; pQueueFamilyIndices := None |}
           {| allocInfo_usage := 0; requiredFlags := 6 |}].
Proof. eexists _, _. split; [reflexivity|]. by vm_compute. Qed.

(** The queue-family set {0, 2}: concurrent sharing with exactly those
    two indices. *)
Example ctor_0_2_concurrent :
  calls (after (Buffer_ctor always_succeeds 1 2 3 256 32 0 6
                  (Some {[2%N; 0%N]})) empty_world)
  = [vmaCreateBuffer_call 2
       {| createInfo_size := 256; createInfo_usage := 32;
          sharingMode := VK_SHARING_MODE_CONCURRENT;
          queueFamilyIndexCount := 2;
          pQueueFamilyIndices := Some [0%N; 2%N] |}
       {| allocInfo_usage := 0; requiredFlags := 6 |}].
Proof. by vm_compute. Qed.

(** A set with one index: exclusive sharing. *)
Example ctor_singleton_exclusive :
  calls (after (Buffer_ctor always_succeeds 1 2 3 256 32 0 6
                  (Some {[5%N]})) empty_world)
  = [vmaCreateBuffer_call 2
       {| createInfo_size := 256; createInfo_usage := 32;
          sharingMode := VK_SHARING_MODE_EXCLUSIVE;
          queueFamilyIndexCount := 0; pQueueFamilyIndices := None |}
       {| allocInfo_usage := 0; requiredFlags := 6 |}].
Proof. by vm_compute. Qed.

Lemma size_fixed_by_construction_witness :
  ∃ b w',
    Buffer_ctor always_succeeds 1 2 3 256 32 0 6 None empty_world = (Ok b, w')
    ∧ size b = 256%N ∧ getSize b = 256.
Proof.
  eexists _, _. split; [reflexivity|].
  destruct (size_fixed_by_construction always_succeeds 1 2 3 256 32 0 6 None
              empty_world _ _ eq_refl) as (Hsz & _ & Hget & _).
  split; [exact Hsz|]. apply Hget. reflexivity.
Defined.

(** C8 as stated fails: a buffer of 2^32 bytes is constructed with that
    size, and [getSize] reports 0. *)
Lemma getSize_truncates_counterexample :
  ∃ b w',
    Buffer_ctor always_succeeds 1 2 3 4294967296 32 0 6 None empty_world
    = (Ok b, w')
    ∧ size b = 4294967296%N
    ∧ getSize b = 0
    ∧ getSize b ≠ Z.of_N 4294967296.
Proof.
  eexists _, _. split; [reflexivity|]. split; [reflexivity|].
  split; [reflexivity|]. discriminate.
Qed.

(** And the size of an object changes when another buffer is moved into
    it. *)
Example move_assign_replaces_size :
  let p := run always_succeeds
             [New 10 1 2 3 256 32 0 6 None; New 11 1 2 3 64 32 0 6 None]
             empty_program in
  size <$> objects p !! 10%N = Some 256%N
  ∧ size <$> objects (step always_succeeds (MoveAssign 10 11) p) !! 10%N
    = Some 64%N.
Proof. by vm_compute. Qed.

End Scenarios.

(** * Properties of the host upload *)

Section UploadFacts.
Import Buffers Objects Scenario.

Variable api_result : Call → World → VkResult.

Lemma calls_since_app w w' l :
  calls w' = calls w ++ l → calls_since w w' = l.
Proof. unfold calls_since. intros ->. by rewrite drop_app_length. Qed.

Lemma overwrite_take (src dest : list byte) (n : nat) :
  (n ≤ length src)%nat → take n (overwrite src n dest) = take n src.
Proof.
  intros Hn. unfold overwrite.
  rewrite take_app_le by (rewrite length_take; lia).
  rewrite take_take. f_equal. lia.
Qed.

Lemma overwrite_drop (src dest : list byte) (n : nat) :
  (n ≤ length src)%nat → drop n (overwrite src n dest) = drop n dest.
Proof.
  intros Hn. unfold overwrite.
  rewrite drop_app_ge by (rewrite length_take; lia).
  rewrite length_take. replace (n - n `min` length src)%nat with 0%nat by lia.
  done.
Qed.

Lemma overwrite_idemp (src dest : list byte) (n : nat) :
  (n ≤ length src)%nat →
  overwrite src n (overwrite src n dest) = overwrite src n dest.
Proof.
  intros Hn. unfold overwrite at 1. rewrite overwrite_drop by done. done.
Qed.

(** What [loadData] does, by the answer to the map call. *)
Lemma loadData_unfold this data offset w :
  let map_call := vmaMapMemory_call (allocator this) (allocation this) in
  let r := api_result map_call w in
  loadData api_result this data offset w
  = (Ok r,
     if r =? VK_SUCCESS
     then log (vmaUnmapMemory_call (allocator this) (allocation this))
            (log (memcpy_call (allocation this) data (size this))
               (set_memory
                  (alter (overwrite data (N.to_nat (size this)))
                     (allocation this) (memory w))
                  (log map_call w)))
     else log map_call w).
Proof.
  unfold loadData, vmaMapMemory, memcpy, vmaUnmapMemory, mbind, M_bind,
    mret, M_ret. simpl.
  destruct (api_result _ w =? VK_SUCCESS) eqn:Hr; simpl; reflexivity.
Qed.

Lemma loadData_success_effect this data offset w w' :
  loadData api_result this data offset w = (Ok VK_SUCCESS, w') →
  calls w'
  = calls w ++ [vmaMapMemory_call (allocator this) (allocation this);
                memcpy_call (allocation this) data (size this);
                vmaUnmapMemory_call (allocator this) (allocation this)]
  ∧ memory w'
    = alter (overwrite data (N.to_nat (size this))) (allocation this)
        (memory w)
  ∧ binding w' = binding w ∧ cmdbufs w' = cmdbufs w
  ∧ pending w' = pending w ∧ last_handle w' = last_handle w.
Proof.
  rewrite loadData_unfold. simpl.
  destruct (api_result _ w =? VK_SUCCESS) eqn:Hr.
  - intros [= Hret <-]. simpl. rewrite <- !app_assoc. simpl. done.
  - intros [= Hret _]. rewrite Hret in Hr. discriminate.
Qed.

(** C4.  A successful [loadData] makes three calls: it maps the
    allocation, copies [size] bytes, the declared size of the buffer,
    from the source to the mapped base of the allocation, and unmaps.
    The bytes of the allocation are overwritten accordingly and nothing
    else in the world changes.  The offset argument plays no part: any
    other offset gives the same result and the same world. *)
Theorem loadData_copies_size_bytes (this : Buffer) (data : list byte)
    (offset : N) (w w' : World) :
  loadData api_result this data offset w = (Ok VK_SUCCESS, w') →
  (calls w'
   = calls w ++ [vmaMapMemory_call (allocator this) (allocation this);
                 memcpy_call (allocation this) data (size this);
                 vmaUnmapMemory_call (allocator this) (allocation this)]
   ∧ memory w'
     = alter (overwrite data (N.to_nat (size this))) (allocation this)
         (memory w)
   ∧ binding w' = binding w ∧ cmdbufs w' = cmdbufs w
   ∧ pending w' = pending w ∧ last_handle w' = last_handle w)
  ∧ ∀ offset', loadData api_result this data offset' w = (Ok VK_SUCCESS, w').
Proof.
  intros Hload. split; [by apply (loadData_success_effect _ _ offset)|].
  intros offset'. exact Hload.
Qed.

(** C6.  [loadData] never throws: it returns the result of the map call
    as a status.  If that result is not [VK_SUCCESS], the map call is
    the only call made (no copy, no unmap) and memory, hence the content
    of every buffer, is as before.  The unmap call is made exactly when
    the map call succeeded. *)
Theorem loadData_map_failure (this : Buffer) (data : list byte) (offset : N)
    (w : World) :
  let map_call := vmaMapMemory_call (allocator this) (allocation this) in
  let r := api_result map_call w in
  ∃ w',
    loadData api_result this data offset w = (Ok r, w')
    ∧ (r ≠ VK_SUCCESS →
       calls_since w w' = [map_call]
       ∧ memory w' = memory w
       ∧ buffer_content w' (vertexBuffer this)
         = buffer_content w (vertexBuffer this))
    ∧ (vmaUnmapMemory_call (allocator this) (allocation this)
         ∈ calls_since w w' ↔ r = VK_SUCCESS).
Proof.
  intros map_call r. eexists. split; [apply loadData_unfold|].
  fold map_call. fold r.
  destruct (r =? VK_SUCCESS) eqn:Hr.
  - apply Z.eqb_eq in Hr. split; [done|]. split; [done|]. intros _.
    rewrite (calls_since_app w _
               [map_call; memcpy_call (allocation this) data (size this);
                vmaUnmapMemory_call (allocator this) (allocation this)])
      by (simpl; by rewrite <- !app_assoc).
    set_solver.
  - apply Z.eqb_neq in Hr.
    rewrite (calls_since_app w (log map_call w) [map_call]) by done.
    split; [done|]. split; [|done].
    intros [Heq|Hin]%elem_of_cons; [discriminate|]. by inversion Hin.
Qed.

(** C9.  After a successful [loadData] of [x] into a buffer whose
    allocation is live, the first [size] bytes of the mapped region are
    the first [size] bytes of [x], and the bytes beyond are as before;
    a second successful load of the same [x] leaves memory as the first
    left it.  [x] holds at least [size] bytes, as the copy requires. *)
Theorem loadData_round_trip (this : Buffer) (x region : list byte)
    (offset : N) (w w' : World) :
  memory w !! allocation this = Some region →
  (N.to_nat (size this) ≤ length x)%nat →
  loadData api_result this x offset w = (Ok VK_SUCCESS, w') →
  (∃ region',
     memory w' !! allocation this = Some region'
     ∧ take (N.to_nat (size this)) region' = take (N.to_nat (size this)) x
     ∧ drop (N.to_nat (size this)) region'
       = drop (N.to_nat (size this)) region)
  ∧ ∀ offset' w'',
      loadData api_result this x offset' w' = (Ok VK_SUCCESS, w'') →
      memory w'' = memory w'.
Proof.
  intros Hlive Hx Hload.
  destruct (loadData_success_effect _ _ _ _ _ Hload) as (_ & Hmem & _).
  split.
  - exists (overwrite x (N.to_nat (size this)) region).
    rewrite Hmem, lookup_alter_eq, Hlive. simpl.
    by rewrite overwrite_take, overwrite_drop.
  - intros offset' w'' Hload'.
    destruct (loadData_success_effect _ _ _ _ _ Hload') as (_ & Hmem' & _).
    rewrite Hmem', Hmem. rewrite alter_alter_eq.
    apply alter_ext. intros m _. simpl. by apply overwrite_idemp.
Qed.

End UploadFacts.

(** * Properties of the transfer *)

Section TransferFacts.
Import Buffers Objects Scenario.

Variable api_result : Call → World → VkResult.

Ltac case_api_result :=
  match goal with
  | H : (api_result ?c ?w =? VK_SUCCESS) = _
    |- context [api_result ?c ?w =? VK_SUCCESS] => rewrite H
  | |- context [if (api_result ?c ?w =? VK_SUCCESS) then _ else _] =>
      destruct (api_result c w =? VK_SUCCESS) eqn:?
  end; cbv beta iota.

(** The outcome of a transfer and the world it leaves, case by case. *)
Lemma copyDataFrom_cases this src q pool w :
  let cb := N.succ (last_handle w) in
  let copy := CopyBuffer src (vertexBuffer this) [whole_buffer (size this)] in
  ∃ res w',
    copyDataFrom api_result this src q pool w = (res, w')
    ∧ binding w' = binding w
    ∧ (last_handle w ≤ last_handle w')%N
    ∧ match res with
      | Ok _ =>
          calls w' = calls w ++ transfer_calls this src q pool cb
          ∧ cmdbufs w' !! cb = None
          ∧ pending w' !! q = None
          ∧ memory w'
            = execute (binding w) copy
                (foldl (λ mem c, execute (binding w) c mem) (memory w)
                   (default [] (pending w !! q)))
      | Throw e =>
          calls_until e ≠ 0%nat
          ∧ calls w'
            = calls w ++ take (calls_until e)
                           (transfer_calls this src q pool cb)
          ∧ memory w' = memory w
          ∧ (e = FAILED_CANNOT_CREATE_CMD_BUFFER → cmdbufs w' = cmdbufs w)
          ∧ (e ≠ FAILED_CANNOT_CREATE_CMD_BUFFER →
             fst <$> cmdbufs w' !! cb = Some pool)
          ∧ ∃ c w1, last (calls w') = Some c ∧ api_result c w1 ≠ VK_SUCCESS
      end.
Proof.
  destruct w as [mem bnd cbs pnd lh cs].
  destruct (copyDataFrom api_result this src q pool _) as [res w'] eqn:Hrun.
  revert Hrun.
  cbv beta iota zeta delta [copyDataFrom cmdCopyDataFrom CHECK_VK_SUCCESS
    vkAllocateCommandBuffers vkBeginCommandBuffer vkCmdCopyBuffer
    vkEndCommandBuffer vkQueueSubmit vkQueueWaitIdle
    vkFreeCommandBuffers mbind M_bind mret M_ret throw
    log set_memory set_binding set_cmdbufs set_pending set_last_handle
    memory binding cmdbufs pending last_handle calls commandPool].
  repeat case_api_result.
  all: intros [= <- <-]; eexists _, _; (split; [reflexivity|]);
    cbv beta iota; (split; [reflexivity|]); (split; [lia|]).
  1: { split; [by rewrite <- !app_assoc|].
       split; [apply lookup_delete_eq|]. split; [apply lookup_delete_eq|].
       rewrite lookup_insert_eq. unfold recorded. cbn [cmdbufs].
       rewrite !lookup_alter_eq, lookup_insert_eq.
       cbn [default from_option fmap option_fmap option_map snd fst app id].
       by rewrite foldl_app. }
  all: split; [done|]; (split; [by rewrite <- ?app_assoc|]);
    (split; [reflexivity|]); (split; [done|]);
    (split;
     [ first [ by intros [] | intros _;
               by rewrite ?lookup_alter_eq, lookup_insert_eq ] |]);
    eexists _, _; (split; [apply last_snoc|]);
    apply Z.eqb_neq; eassumption.
Qed.

Lemma copy_region_same_shape bnd s d r mem :
  same_shape mem (copy_region bnd s d r mem).
Proof.
  unfold same_shape, copy_region. intros a.
  destruct (bnd !! s) as [sa|]; [|done].
  destruct (bnd !! d) as [da|]; [|done].
  destruct (mem !! sa) as [sm|] eqn:Hsm; [|done].
  destruct (mem !! da) as [dm|] eqn:Hdm; [|done].
  case_bool_decide as Hin; [|done].
  destruct (decide (a = da)) as [->|Hne].
  - rewrite lookup_insert_eq, Hdm. simpl. f_equal.
    rewrite !length_app, !length_take, !length_drop. lia.
  - by rewrite lookup_insert_ne.
Qed.

Lemma execute_same_shape bnd c mem : same_shape mem (execute bnd c mem).
Proof.
  destruct c as [s d regions]. simpl. revert mem.
  induction regions as [|r regions IH]; intros mem; simpl; [done|].
  intros a. rewrite IH. apply copy_region_same_shape.
Qed.

Lemma foldl_execute_same_shape bnd cmds mem :
  same_shape mem (foldl (λ mem c, execute bnd c mem) mem cmds).
Proof.
  revert mem. induction cmds as [|c cmds IH]; intros mem; simpl; [done|].
  intros a. rewrite IH. apply execute_same_shape.
Qed.

(** Copying the whole of a destination of [n] bytes from a source that
    holds at least [n]: the source is as before and the destination
    holds its first [n] bytes. *)
Lemma copy_whole_buffer bnd src dst n mem sa da sm dm :
  bnd !! src = Some sa → bnd !! dst = Some da →
  mem !! sa = Some sm → mem !! da = Some dm →
  (N.to_nat n ≤ length sm)%nat → length dm = N.to_nat n →
  copy_region bnd src dst (whole_buffer n) mem !! sa = Some sm
  ∧ copy_region bnd src dst (whole_buffer n) mem !! da
    = Some (take (N.to_nat n) sm).
Proof.
  intros Hs Hd Hsm Hdm Hn Hlen. unfold copy_region.
  rewrite Hs, Hd, Hsm, Hdm. simpl.
  rewrite bool_decide_eq_true_2 by lia.
  change (N.to_nat 0) with 0%nat. rewrite drop_0.
  rewrite (drop_ge dm) by lia. rewrite app_nil_r.
  split; [|by rewrite lookup_insert_eq].
  destruct (decide (sa = da)) as [->|Hne].
  - rewrite lookup_insert_eq. f_equal.
    assert (sm = dm) as -> by congruence. apply take_ge. lia.
  - by rewrite lookup_insert_ne.
Qed.

(** C3.  The recording variant appends one copy command with a single
    region, from offset 0 to offset 0 and as long as the destination's
    size.  A [copyDataFrom] that returns has made the seven calls of the
    one-shot transfer and recorded exactly that one copy; when both
    buffers are live, the source holds at least [size] bytes and the
    destination [size] bytes, the destination then holds the first
    [size] bytes of the source, and the source is what it was when the
    copy ran: what it was before the call, if nothing was pending on
    the queue. *)
Theorem copyDataFrom_copies (this : Buffer) (src q pool : N) (w w' : World)
    (sa da : N) (sm dm : list byte) :
  binding w !! src = Some sa → memory w !! sa = Some sm →
  binding w !! vertexBuffer this = Some da → memory w !! da = Some dm →
  (N.to_nat (size this) ≤ length sm)%nat →
  length dm = N.to_nat (size this) →
  copyDataFrom api_result this src q pool w = (Ok (), w') →
  let cb := N.succ (last_handle w) in
  (∀ transferBuffer w0,
     calls (after (cmdCopyDataFrom this src transferBuffer) w0)
     = calls w0 ++ [vkCmdCopyBuffer_call transferBuffer src
                      (vertexBuffer this) [whole_buffer (size this)]])
  ∧ calls_since w w' = transfer_calls this src q pool cb
  ∧ recorded_copies (calls_since w w')
    = [(cb, src, vertexBuffer this,
        [{| srcOffset := 0; dstOffset := 0;
            copyRegion_size := size this |}])]
  ∧ ∃ content,
      buffer_content w' src = Some content
      ∧ buffer_content w' (vertexBuffer this)
        = Some (take (N.to_nat (size this)) content)
      ∧ (pending w !! q = None → content = sm).
Proof.
  intros Hs Hsm Hd Hdm Hn Hlen Hrun cb.
  split; [done|].
  destruct (copyDataFrom_cases this src q pool w)
    as (res & w1 & Hrun' & Hbnd & _ & Hres).
  rewrite Hrun in Hrun'. injection Hrun' as <- <-.
  destruct Hres as (Hcalls & _ & _ & Hmem).
  apply calls_since_app in Hcalls. rewrite Hcalls.
  split; [done|]. split; [done|].
  set (mem1 := foldl (λ mem c, execute (binding w) c mem) (memory w)
                 (default [] (pending w !! q))) in Hmem.
  pose proof (foldl_execute_same_shape (binding w)
                (default [] (pending w !! q)) (memory w)) as Hshape.
  fold mem1 in Hshape.
  destruct (mem1 !! sa) as [sm1|] eqn:Hsm1;
    [|by specialize (Hshape sa); rewrite Hsm1, Hsm in Hshape].
  destruct (mem1 !! da) as [dm1|] eqn:Hdm1;
    [|by specialize (Hshape da); rewrite Hdm1, Hdm in Hshape].
  assert (length sm1 = length sm) as Hl1.
  { specialize (Hshape sa). rewrite Hsm1, Hsm in Hshape. by simplify_eq/=. }
  assert (length dm1 = length dm) as Hl2.
  { specialize (Hshape da). rewrite Hdm1, Hdm in Hshape. by simplify_eq/=. }
  destruct (copy_whole_buffer (binding w) src (vertexBuffer this)
              (size this) mem1 sa da sm1 dm1) as [Hsrc Hdst];
    [done|done|done|done|lia|lia|].
  exists sm1. unfold buffer_content. rewrite Hbnd, Hs, Hd, Hmem. simpl.
  split; [done|]. split; [done|].
  intros Hidle. unfold mem1 in Hsm1. rewrite Hidle in Hsm1. simpl in Hsm1.
  congruence.
Qed.

(** One case analysis on the answer to a checked call, the calls taken in
    the order they are made: the world of the call chosen depends on no
    answer still open. *)
Ltac case_next_answer :=
  match goal with
  | H : (api_result ?c ?w =? VK_SUCCESS) = _
    |- context [api_result ?c ?w =? VK_SUCCESS] => rewrite H
  | |- context [if (api_result ?c ?w =? VK_SUCCESS) then _ else _] =>
      lazymatch w with
      | context [api_result] => fail
      | _ => destruct (api_result c w =? VK_SUCCESS) eqn:?
      end
  end; cbv beta iota.

(** A transfer throws exactly when one of its checked steps fails, and
    then the error of the first step that failed; it returns exactly when
    all five succeed. *)
Lemma copyDataFrom_outcome this src q pool w :
  (copyDataFrom api_result this src q pool w).1
  = match first_failure api_result
            (checked_steps api_result this src q pool w) with
    | Some e => Throw e
    | None => Ok ()
    end.
Proof.
  destruct w as [mem bnd cbs pnd lh cs].
  cbv beta iota zeta delta [copyDataFrom cmdCopyDataFrom CHECK_VK_SUCCESS
    vkAllocateCommandBuffers vkBeginCommandBuffer vkCmdCopyBuffer
    vkEndCommandBuffer vkQueueSubmit vkQueueWaitIdle
    vkFreeCommandBuffers mbind M_bind mret M_ret throw
    log set_memory set_binding set_cmdbufs set_pending set_last_handle
    memory binding cmdbufs pending last_handle calls commandPool
    first_failure checked_steps whole_buffer after fst snd].
  repeat case_next_answer; reflexivity.
Qed.

(** C7, as the code has it.  If any of the five checked steps of the
    transfer (allocate, begin, end, submit, wait-idle) is answered with a
    failure, the transfer throws the error of the first such step, and
    the call of that step is the last call made: the calls are the
    transfer's calls up to it, nothing is submitted after a failed
    recording step and no command buffer is freed.  If the failing step
    is the allocation, the command buffers are as before; after any
    later step, the command buffer allocated for the transfer is still
    allocated from the pool.  The bindings are untouched, and so is
    memory unless the wait itself failed.  If no step fails, the
    transfer returns after all seven calls. *)
Theorem copyDataFrom_failure (this : Buffer) (src q pool : N) (w : World) :
  let cb := N.succ (last_handle w) in
  ∃ res w',
    copyDataFrom api_result this src q pool w = (res, w')
    ∧ match first_failure api_result
              (checked_steps api_result this src q pool w) with
      | Some e =>
          res = Throw e
          ∧ calls_until e ≠ 0%nat
          ∧ calls_since w w'
            = take (calls_until e) (transfer_calls this src q pool cb)
          ∧ (∃ c w1, last (calls w') = Some c
                     ∧ api_result c w1 ≠ VK_SUCCESS)
          ∧ (∀ c, c ∈ calls_since w w' → is_free_call c = false)
          ∧ binding w' = binding w
          ∧ (e ≠ FAILED_WAIT_IDLE → memory w' = memory w)
          ∧ (e = FAILED_CANNOT_CREATE_CMD_BUFFER → cmdbufs w' = cmdbufs w)
          ∧ (e ≠ FAILED_CANNOT_CREATE_CMD_BUFFER →
             fst <$> cmdbufs w' !! cb = Some pool)
      | None =>
          res = Ok ()
          ∧ calls_since w w' = transfer_calls this src q pool cb
      end.
Proof.
  intros cb.
  destruct (copyDataFrom_cases this src q pool w)
    as (res & w' & Hrun & Hbnd & _ & Hres).
  exists res, w'. split; [exact Hrun|].
  pose proof (copyDataFrom_outcome this src q pool w) as Hout.
  rewrite Hrun in Hout. cbn [fst] in Hout. revert Hout.
  destruct (first_failure api_result _) as [e|]; intros ->.
  - destruct Hres as (Hk & Hcalls & Hmem & Hcreate & Hlater & Hlast).
    apply calls_since_app in Hcalls.
    repeat split; try done.
    intros c Hin. rewrite Hcalls in Hin.
    destruct e; cbn in Hin;
      repeat (apply elem_of_cons in Hin as [->|Hin]; [done|]);
      by apply elem_of_nil in Hin.
  - destruct Hres as (Hcalls & _). split; [done|].
    by apply calls_since_app in Hcalls.
Qed.

End TransferFacts.

(** * Properties of ownership *)

Section OwnershipFacts.
Import Buffers Objects Scenario.

Variable api_result : Call → World → VkResult.

Implicit Types (p : Program) (w : World) (b s d : Buffer).

Lemma released_calls w w' l :
  calls w' = calls w ++ l →
  released w'
  = released w
    ++ omap (λ c, match c with
                  | vmaDestroyBuffer_call _ buffer alloc =>
                      Some (buffer, alloc)
                  | _ => None
                  end) l.
Proof. unfold released. intros ->. apply omap_app. Qed.

Lemma keeps_buffers_refl w : keeps_buffers w w.
Proof. unfold keeps_buffers. split; [done|]. split; [done|lia]. Qed.

Lemma loadData_keeps_buffers b data offset w :
  keeps_buffers w (after (loadData api_result b data offset) w).
Proof.
  unfold after. rewrite loadData_unfold. simpl.
  destruct (_ =? VK_SUCCESS); unfold keeps_buffers; simpl.
  - split; [done|]. split; [|lia].
    rewrite (released_calls w _
               [vmaMapMemory_call (allocator b) (allocation b);
                memcpy_call (allocation b) data (size b);
                vmaUnmapMemory_call (allocator b) (allocation b)])
      by (simpl; by rewrite <- !app_assoc).
    simpl. by rewrite app_nil_r.
  - split; [done|]. split; [|lia].
    rewrite (released_calls w _
               [vmaMapMemory_call (allocator b) (allocation b)]) by done.
    simpl. by rewrite app_nil_r.
Qed.

Lemma copyDataFrom_keeps_buffers b src q pool w :
  keeps_buffers w (after (copyDataFrom api_result b src q pool) w).
Proof.
  destruct (copyDataFrom_cases api_result b src q pool w)
    as (res & w' & Hrun & Hbnd & Hlh & Hres).
  unfold after. rewrite Hrun. simpl.
  split; [done|]. split; [|done].
  destruct res as [[]|e].
  - destruct Hres as (Hcalls & _).
    rewrite (released_calls _ _ _ Hcalls). simpl. by rewrite app_nil_r.
  - destruct Hres as (_ & Hcalls & _).
    rewrite (released_calls _ _ _ Hcalls).
    destruct e; simpl; by rewrite app_nil_r.
Qed.

Lemma cmdCopyDataFrom_keeps_buffers b src cb w :
  keeps_buffers w (after (cmdCopyDataFrom b src cb) w).
Proof.
  unfold keeps_buffers, after, cmdCopyDataFrom, vkCmdCopyBuffer. simpl.
  split; [done|]. split; [|lia].
  rewrite (released_calls w _
             [vkCmdCopyBuffer_call cb src (vertexBuffer b)
                [{| srcOffset := 0; dstOffset := 0;
                    copyRegion_size := size b |}]]) by done.
  simpl. by rewrite app_nil_r.
Qed.

(** What a construction leaves: on success a fresh buffer bound to a
    fresh allocation, held by the new object; on failure nothing. *)
Lemma Buffer_ctor_cases dev vma physicalDev bufferSize bufferUsageFlags
    memoryUsage memoryFlags usedQueues w :
  ∃ res w',
    Buffer_ctor api_result dev vma physicalDev bufferSize bufferUsageFlags
      memoryUsage memoryFlags usedQueues w = (res, w')
    ∧ released w' = released w
    ∧ cmdbufs w' = cmdbufs w ∧ pending w' = pending w
    ∧ match res with
      | Ok b =>
          let vb := N.succ (last_handle w) in
          let al := N.succ vb in
          b = {| logicalDev := dev; allocator := vma; size := bufferSize;
                 vertexBuffer := vb; allocation := al |}
          ∧ binding w' = <[vb := al]> (binding w)
          ∧ memory w'
            = <[al := replicate (N.to_nat bufferSize) x00]> (memory w)
          ∧ last_handle w' = al
      | Throw e =>
          e = CannotCreateBuffer
          ∧ binding w' = binding w ∧ memory w' = memory w
          ∧ last_handle w' = last_handle w
      end.
Proof.
  destruct (Buffer_ctor api_result dev vma physicalDev bufferSize
              bufferUsageFlags memoryUsage memoryFlags usedQueues w)
    as [res w'] eqn:Hrun.
  exists res, w'. split; [done|]. revert Hrun.
  unfold Buffer_ctor, CHECK_VK_SUCCESS, createVertexBufferConcurrent,
    createVertexBuffer, vmaCreateBuffer, mbind, M_bind, mret, M_ret, throw.
  destruct (has_value usedQueues && _);
    cbv beta iota zeta;
    match goal with
    | |- context [api_result ?c w =? VK_SUCCESS] =>
        destruct (api_result c w =? VK_SUCCESS) eqn:Hr;
        cbv beta iota; rewrite ?Hr;
        intros [= <- <-];
        (split; [by rewrite (released_calls w _ [c]), app_nil_r|]); done
    end.
Qed.

Lemma Buffer_dtor_cases b w :
  if isInitialized b
  then binding (after (Buffer_dtor b) w)
         = delete (vertexBuffer b) (binding w)
       ∧ released (after (Buffer_dtor b) w)
         = released w ++ [(vertexBuffer b, allocation b)]
       ∧ last_handle (after (Buffer_dtor b) w) = last_handle w
       ∧ calls (after (Buffer_dtor b) w)
         = calls w ++ [vmaDestroyBuffer_call (allocator b) (vertexBuffer b)
                         (allocation b)]
  else after (Buffer_dtor b) w = w.
Proof.
  unfold after, Buffer_dtor. destruct (isInitialized b); [|done].
  unfold vmaDestroyBuffer. simpl. split; [done|]. split; [|done].
  by rewrite (released_calls w _
                [vmaDestroyBuffer_call (allocator b) (vertexBuffer b)
                   (allocation b)]).
Qed.

Lemma initialized_not_nulled b :
  isInitialized (set_logicalDev nullptr b) = false.
Proof. reflexivity. Qed.

Lemma assign_member_lookup_this get set this buf objs :
  assign_member get set this buf objs !! this
  = match objs !! buf with
    | Some s => set (get s) <$> objs !! this
    | None => objs !! this
    end.
Proof.
  unfold assign_member. destruct (objs !! buf); [|done].
  apply lookup_alter_eq.
Qed.

(** Where an initialised object comes from after a move assignment: it
    is an object of the store before, at the same address or, for the
    target, at the source; and it is not the source. *)
Lemma Buffer_move_assign_origin this buf (objs : gmap N Buffer) a d :
  Buffer_move_assign this buf objs !! a = Some d →
  isInitialized d = true →
  ∃ a0, objs !! a0 = Some d
        ∧ (a0 = a ∨ a0 = buf ∧ a = this)
        ∧ (is_Some (objs !! buf) → a ≠ buf).
Proof.
  intros Hd Hinit.
  destruct (objs !! buf) as [s|] eqn:Hs.
  2:{ rewrite Buffer_move_assign_absent in Hd by done.
      exists a. split; [done|]. split; [by left|]. by intros [? ?]. }
  destruct (decide (this = buf)) as [->|Hne].
  - rewrite Buffer_move_assign_self in Hd.
    destruct (decide (a = buf)) as [->|Ha].
    + rewrite lookup_alter_eq, Hs in Hd. simpl in Hd.
      injection Hd as <-. by rewrite initialized_not_nulled in Hinit.
    + rewrite lookup_alter_ne in Hd by done. eauto.
  - destruct (decide (a = buf)) as [->|Ha].
    + rewrite (Buffer_move_assign_source this buf objs s) in Hd by done.
      injection Hd as <-. by rewrite initialized_not_nulled in Hinit.
    + destruct (decide (a = this)) as [->|Ht].
      * destruct (objs !! this) as [b|] eqn:Hb.
        -- destruct (Buffer_move_assign_distinct this buf objs b s)
             as [Hthis _]; [done..|].
           rewrite Hthis in Hd. injection Hd as <-.
           exists buf. split; [done|]. split; [by right|done].
        -- exfalso. revert Hd. unfold Buffer_move_assign.
           rewrite lookup_alter_ne by done.
           repeat first
             [ rewrite assign_member_lookup_this
             | rewrite assign_member_lookup_ne by done
             | rewrite Hs ].
           rewrite Hb. simpl. discriminate.
      * rewrite Buffer_move_assign_other in Hd by done. eauto.
Qed.

Lemma Buffer_move_ctor_origin this buf (objs : gmap N Buffer) a d :
  objs !! this = None →
  Buffer_move_ctor this buf objs !! a = Some d →
  isInitialized d = true →
  ∃ a0, objs !! a0 = Some d
        ∧ (a0 = a ∨ a0 = buf ∧ a = this)
        ∧ (is_Some (objs !! buf) → a ≠ buf).
Proof.
  intros Hfree Hd Hinit.
  destruct (objs !! buf) as [s|] eqn:Hs.
  2:{ rewrite Buffer_move_ctor_absent in Hd by done.
      exists a. split; [done|]. split; [by left|]. by intros [? ?]. }
  assert (this ≠ buf) as Hne by (intros ->; congruence).
  destruct (Buffer_move_ctor_distinct this buf objs s Hne Hs)
    as [Hthis Hbuf].
  destruct (decide (a = buf)) as [->|Ha].
  - rewrite Hbuf in Hd. injection Hd as <-.
    by rewrite initialized_not_nulled in Hinit.
  - destruct (decide (a = this)) as [->|Ht].
    + rewrite Hthis in Hd. injection Hd as <-.
      exists buf. split; [done|]. split; [by right|done].
    + rewrite Buffer_move_ctor_other in Hd by done. eauto.
Qed.

Lemma sole_owners_empty : sole_owners empty_program.
Proof.
  unfold sole_owners, empty_program, released. simpl.
  split; [by intros a b Hb; rewrite lookup_empty in Hb|].
  split; [by intros a1 a2 b1 b2 Hb; rewrite lookup_empty in Hb|].
  split; [by intros vb al Hb; rewrite lookup_empty in Hb|].
  split; [by intros vb al Hin; apply elem_of_nil in Hin|].
  apply NoDup_nil_2.
Qed.

Lemma sole_owners_frame p w' :
  sole_owners p → keeps_buffers (world p) w' →
  sole_owners {| objects := objects p; world := w' |}.
Proof.
  intros (Hlive & Huniq & Hissued & Hdead & Hnodup) (Hbnd & Hrel & Hlh).
  unfold sole_owners. simpl. rewrite Hbnd, Hrel.
  split; [done|]. split; [done|].
  split; [intros vb al Hvb; specialize (Hissued vb al Hvb); lia|].
  split; [|done].
  intros vb al Hin. destruct (Hdead vb al Hin). split; [lia|done].
Qed.

Lemma sole_owners_moved p this buf (objs' : gmap N Buffer) :
  sole_owners p →
  (∀ a d, objs' !! a = Some d → isInitialized d = true →
     ∃ a0, objects p !! a0 = Some d
           ∧ (a0 = a ∨ a0 = buf ∧ a = this)
           ∧ (is_Some (objects p !! buf) → a ≠ buf)) →
  sole_owners {| objects := objs'; world := world p |}.
Proof.
  intros (Hlive & Huniq & Hissued & Hdead & Hnodup) Horigin.
  unfold sole_owners. simpl.
  split.
  { intros a d Hd Hinit.
    destruct (Horigin a d Hd Hinit) as (a0 & Ha0 & _). eauto. }
  split; [|done].
  intros a1 a2 d1 d2 Hd1 Hd2 Hi1 Hi2 Hvb.
  destruct (Horigin a1 d1 Hd1 Hi1) as (o1 & Ho1 & Hc1 & Hn1).
  destruct (Horigin a2 d2 Hd2 Hi2) as (o2 & Ho2 & Hc2 & Hn2).
  assert (o1 = o2) as <- by eauto.
  destruct Hc1 as [->|[-> ->]], Hc2 as [Heq|[Heq ->]]; try done.
  - subst. exfalso. apply Hn1; eauto.
  - subst. exfalso. apply Hn2; eauto.
Qed.

Lemma step_sole_owners op p :
  sole_owners p → sole_owners (step api_result op p).
Proof.
  intros Hp.
  destruct op as [this dev vma pd sz us mu mf uq | this buf | this buf
                 | this | this data off | this src q pool
                 | this src q pool | this src cb | this src cb]; simpl.
  - destruct (objects p !! this) eqn:Hfree; [done|].
    destruct (Buffer_ctor_cases dev vma pd sz us mu mf uq (world p))
      as (res & w' & Hrun & Hrel & _ & _ & Hres).
    rewrite Hrun.
    destruct Hp as (Hlive & Huniq & Hissued & Hdead & Hnodup).
    destruct res as [b|e].
    + destruct Hres as (Hb & Hbnd & _ & Hlh).
      assert (Hfresh : ∀ vb al, binding (world p) !! vb = Some al →
                vb ≠ N.succ (last_handle (world p))).
      { intros vb al Hvb. specialize (Hissued vb al Hvb). lia. }
      unfold sole_owners. simpl. rewrite Hbnd, Hrel, Hlh.
      split.
      { intros a d Hd Hinit.
        destruct (decide (a = this)) as [->|Hne].
        - rewrite lookup_insert_eq in Hd. injection Hd as <-. subst b.
          simpl. by rewrite lookup_insert_eq.
        - rewrite lookup_insert_ne in Hd by done.
          pose proof (Hlive a d Hd Hinit) as Hl.
          rewrite lookup_insert_ne; [done|].
          intros Heq. by apply (Hfresh _ _ Hl). }
      split.
      { intros a1 a2 d1 d2 Hd1 Hd2 Hi1 Hi2 Hvb.
        destruct (decide (a1 = this)) as [->|Hne1],
                 (decide (a2 = this)) as [->|Hne2]; [done| | |].
        - rewrite lookup_insert_eq in Hd1. injection Hd1 as <-.
          rewrite lookup_insert_ne in Hd2 by done.
          exfalso. eapply (Hfresh (vertexBuffer d2)); [by eauto|].
          rewrite <- Hvb. by subst b.
        - rewrite lookup_insert_eq in Hd2. injection Hd2 as <-.
          rewrite lookup_insert_ne in Hd1 by done.
          exfalso. eapply (Hfresh (vertexBuffer d1)); [by eauto|].
          rewrite Hvb. by subst b.
        - rewrite lookup_insert_ne in Hd1, Hd2 by done. eauto. }
      split.
      { intros vb al. rewrite lookup_insert.
        case_decide as Hvb; [intros _; lia|].
        intros Hl. specialize (Hissued vb al Hl). lia. }
      split; [|done].
      intros vb al Hin. destruct (Hdead vb al Hin) as [Hle Hnone].
      split; [lia|]. rewrite lookup_insert_ne by lia. done.
    + destruct Hres as (_ & Hbnd & _ & Hlh).
      unfold sole_owners. simpl. rewrite Hbnd, Hrel, Hlh. done.
  - destruct (objects p !! this) eqn:Hfree; [done|].
    apply (sole_owners_moved p this buf); [done|].
    intros a d. by apply Buffer_move_ctor_origin.
  - apply (sole_owners_moved p this buf); [done|].
    intros a d. by apply Buffer_move_assign_origin.
  - destruct (objects p !! this) as [b|] eqn:Hb; [|done].
    pose proof (Buffer_dtor_cases b (world p)) as Hd.
    destruct Hp as (Hlive & Huniq & Hissued & Hdead & Hnodup).
    destruct (isInitialized b) eqn:Hinit.
    + destruct Hd as (Hbnd & Hrel & Hlh & _).
      pose proof (Hlive this b Hb Hinit) as Hbl.
      unfold sole_owners. simpl. rewrite Hbnd, Hrel, Hlh.
      split.
      { intros a d Hd Hi.
        apply lookup_delete_Some in Hd as [Hne Hd].
        rewrite lookup_delete_ne; [by eauto|].
        intros Heq. apply Hne. by apply (Huniq this a b d). }
      split.
      { intros a1 a2 d1 d2 Hd1 Hd2.
        apply lookup_delete_Some in Hd1 as [_ Hd1].
        apply lookup_delete_Some in Hd2 as [_ Hd2]. eauto. }
      split.
      { intros vb al Hl. apply lookup_delete_Some in Hl as [_ Hl]. eauto. }
      split.
      { intros vb al [Hin|Hin]%elem_of_app.
        - destruct (Hdead vb al Hin) as [Hle Hnone]. split; [done|].
          apply lookup_delete_None. by right.
        - apply list_elem_of_singleton in Hin. injection Hin as -> ->.
          split; [by eauto|]. apply lookup_delete_eq. }
      rewrite fmap_app. simpl. apply NoDup_app. split; [done|].
      split; [|apply NoDup_singleton].
      intros vb Hin Hin'. apply list_elem_of_singleton in Hin'. subst vb.
      apply list_elem_of_fmap in Hin as ([vb al] & Heq & Hin).
      simpl in Heq. subst vb.
      destruct (Hdead _ _ Hin) as [_ Hnone]. congruence.
    + rewrite Hd. unfold sole_owners. simpl.
      split.
      { intros a d Hd' Hi.
        apply lookup_delete_Some in Hd' as [_ Hd']. eauto. }
      split; [|done].
      intros a1 a2 d1 d2 Hd1 Hd2.
      apply lookup_delete_Some in Hd1 as [_ Hd1].
      apply lookup_delete_Some in Hd2 as [_ Hd2]. eauto.
  - destruct (objects p !! this) as [b|]; [|done].
    apply sole_owners_frame; [done|apply loadData_keeps_buffers].
  - destruct (objects p !! this) as [b|]; [|done].
    destruct (objects p !! src) as [s|]; [|done].
    apply sole_owners_frame; [done|apply copyDataFrom_keeps_buffers].
  - destruct (objects p !! this) as [b|]; [|done].
    apply sole_owners_frame; [done|apply copyDataFrom_keeps_buffers].
  - destruct (objects p !! this) as [b|]; [|done].
    destruct (objects p !! src) as [s|]; [|done].
    apply sole_owners_frame; [done|apply cmdCopyDataFrom_keeps_buffers].
  - destruct (objects p !! this) as [b|]; [|done].
    apply sole_owners_frame; [done|apply cmdCopyDataFrom_keeps_buffers].
Qed.

Lemma run_sole_owners ops p :
  sole_owners p → sole_owners (run api_result ops p).
Proof.
  revert p. induction ops as [|op ops IH]; intros p Hp; simpl; [done|].
  apply IH. by apply step_sole_owners.
Qed.

Lemma orphaned_frame vb p w' :
  orphaned vb p → keeps_buffers (world p) w' →
  orphaned vb {| objects := objects p; world := w' |}.
Proof.
  intros (Hlive & Hle & Hnone) (Hbnd & _ & Hlh).
  unfold orphaned. simpl. rewrite Hbnd.
  split; [done|]. split; [lia|done].
Qed.

Lemma orphaned_moved vb p this buf (objs' : gmap N Buffer) :
  orphaned vb p →
  (∀ a d, objs' !! a = Some d → isInitialized d = true →
     ∃ a0, objects p !! a0 = Some d
           ∧ (a0 = a ∨ a0 = buf ∧ a = this)
           ∧ (is_Some (objects p !! buf) → a ≠ buf)) →
  orphaned vb {| objects := objs'; world := world p |}.
Proof.
  intros (Hlive & Hle & Hnone) Horigin. unfold orphaned. simpl.
  split; [done|]. split; [done|].
  intros a d Hd Hinit.
  destruct (Horigin a d Hd Hinit) as (a0 & Ha0 & _). eauto.
Qed.

(** No operation releases an orphaned buffer, and it stays orphaned. *)
Lemma step_orphaned vb op p :
  orphaned vb p →
  orphaned vb (step api_result op p)
  ∧ ∀ al, (vb, al) ∈ released (world (step api_result op p)) →
          (vb, al) ∈ released (world p).
Proof.
  intros Hp.
  destruct op as [this dev vma pd sz us mu mf uq | this buf | this buf
                 | this | this data off | this src q pool
                 | this src q pool | this src cb | this src cb]; simpl.
  - destruct (objects p !! this) eqn:Hfree; [done|].
    destruct (Buffer_ctor_cases dev vma pd sz us mu mf uq (world p))
      as (res & w' & Hrun & Hrel & _ & _ & Hres).
    rewrite Hrun. destruct Hp as (Hlive & Hle & Hnone).
    destruct res as [b|e].
    + destruct Hres as (Hb & Hbnd & _ & Hlh).
      unfold orphaned. simpl. rewrite Hbnd, Hrel, Hlh.
      split; [|done].
      split; [rewrite lookup_insert_ne by lia; done|].
      split; [lia|].
      intros a d Hd Hinit.
      destruct (decide (a = this)) as [->|Hne].
      * rewrite lookup_insert_eq in Hd. injection Hd as <-. subst b.
        simpl. lia.
      * rewrite lookup_insert_ne in Hd by done. eauto.
    + destruct Hres as (_ & Hbnd & _ & Hlh).
      unfold orphaned. simpl. rewrite Hbnd, Hrel, Hlh. done.
  - destruct (objects p !! this) eqn:Hfree; [done|].
    split; [|done].
    apply (orphaned_moved vb p this buf); [done|].
    intros a d. by apply Buffer_move_ctor_origin.
  - split; [|done].
    apply (orphaned_moved vb p this buf); [done|].
    intros a d. by apply Buffer_move_assign_origin.
  - destruct (objects p !! this) as [b|] eqn:Hb; [|done].
    pose proof (Buffer_dtor_cases b (world p)) as Hd.
    destruct Hp as (Hlive & Hle & Hnone).
    destruct (isInitialized b) eqn:Hinit.
    + destruct Hd as (Hbnd & Hrel & Hlh & _).
      pose proof (Hnone this b Hb Hinit) as Hne.
      unfold orphaned. simpl. rewrite Hbnd, Hrel, Hlh.
      split.
      * split; [by rewrite lookup_delete_ne|]. split; [done|].
        intros a d Hd' Hi.
        apply lookup_delete_Some in Hd' as [_ Hd']. eauto.
      * intros al [Hin|Hin]%elem_of_app; [done|].
        apply list_elem_of_singleton in Hin. congruence.
    + rewrite Hd. split; [|done]. unfold orphaned. simpl.
      split; [done|]. split; [done|].
      intros a d Hd' Hi.
      apply lookup_delete_Some in Hd' as [_ Hd']. eauto.
  - destruct (objects p !! this) as [b|]; [|done].
    pose proof (loadData_keeps_buffers b data off (world p)) as Hk.
    split; [by apply orphaned_frame|]. simpl.
    destruct Hk as (_ & -> & _). done.
  - destruct (objects p !! this) as [b|]; [|done].
    destruct (objects p !! src) as [s|]; [|done].
    pose proof (copyDataFrom_keeps_buffers b (vertexBuffer s) q pool
                  (world p)) as Hk.
    split; [by apply orphaned_frame|]. simpl.
    destruct Hk as (_ & Hrel & _). unfold copyDataFrom_Buffer.
    by rewrite Hrel.
  - destruct (objects p !! this) as [b|]; [|done].
    pose proof (copyDataFrom_keeps_buffers b src q pool (world p)) as Hk.
    split; [by apply orphaned_frame|]. simpl.
    destruct Hk as (_ & -> & _). done.
  - destruct (objects p !! this) as [b|]; [|done].
    destruct (objects p !! src) as [s|]; [|done].
    pose proof (cmdCopyDataFrom_keeps_buffers b (vertexBuffer s) cb
                  (world p)) as Hk.
    split; [by apply orphaned_frame|]. simpl.
    destruct Hk as (_ & Hrel & _). unfold cmdCopyDataFrom_Buffer.
    by rewrite Hrel.
  - destruct (objects p !! this) as [b|]; [|done].
    pose proof (cmdCopyDataFrom_keeps_buffers b src cb (world p)) as Hk.
    split; [by apply orphaned_frame|]. simpl.
    destruct Hk as (_ & -> & _). done.
Qed.

Lemma run_orphaned vb ops p :
  orphaned vb p →
  ∀ al, (vb, al) ∈ released (world (run api_result ops p)) →
        (vb, al) ∈ released (world p).
Proof.
  revert p. induction ops as [|op ops IH]; intros p Hp al; simpl; [done|].
  destruct (step_orphaned vb op p Hp) as [Hp' Hrel].
  intros Hin. apply Hrel. by apply (IH _ Hp').
Qed.

(** C5.  A move construction of a new object at [this], or a move
    assignment into an object at [this], from the object at [buf]:
    the source then reports [isInitialized() == false]; the destination
    holds the buffer and allocation handles the source had (and, being
    another object, all its members); the move makes no call.
    Destroying the moved-from object makes no call either, while
    destroying the destination releases the pair exactly if the source
    was initialised.  From a state that keeps the ownership discipline,
    every later state keeps it too: initialised objects hold distinct
    live pairs and no pair is released twice. *)
Theorem move_transfers_ownership (p : Program) (op : Op) (this buf : N)
    (s : Buffer) :
  objects p !! buf = Some s →
  (op = MoveNew this buf ∧ objects p !! this = None)
  ∨ (op = MoveAssign this buf ∧ is_Some (objects p !! this)) →
  let p' := step api_result op p in
  (∃ s', objects p' !! buf = Some s' ∧ isInitialized s' = false)
  ∧ (∃ d, objects p' !! this = Some d
          ∧ vertexBuffer d = vertexBuffer s
          ∧ allocation d = allocation s)
  ∧ world p' = world p
  ∧ world (step api_result (Delete buf) p') = world p'
  ∧ (this ≠ buf →
     objects p' !! this = Some s
     ∧ calls (world (step api_result (Delete this) p'))
       = calls (world p')
         ++ (if isInitialized s
             then [vmaDestroyBuffer_call (allocator s) (vertexBuffer s)
                     (allocation s)]
             else []))
  ∧ (sole_owners p →
     ∀ ops, sole_owners (run api_result ops p')
            ∧ NoDup (released (world (run api_result ops p'))).*1).
Proof.
  intros Hs Hop p'.
  assert (Hsrc : ∃ s', objects p' !! buf = Some s'
                       ∧ s' = set_logicalDev nullptr s).
  { destruct Hop as [[-> Hfree]|[-> [b Hb]]]; subst p'; simpl.
    - rewrite Hfree. simpl.
      assert (this ≠ buf) as Hne by (intros ->; congruence).
      destruct (Buffer_move_ctor_distinct this buf (objects p) s Hne Hs)
        as [_ ->]. eauto.
    - destruct (decide (this = buf)) as [->|Hne].
      + rewrite Buffer_move_assign_self, lookup_alter_eq, Hs. eauto.
      + rewrite (Buffer_move_assign_source this buf (objects p) s)
          by done. eauto. }
  assert (Hdst : this ≠ buf → objects p' !! this = Some s).
  { intros Hne. destruct Hop as [[-> Hfree]|[-> [b Hb]]]; subst p'; simpl.
    - rewrite Hfree. simpl.
      by destruct (Buffer_move_ctor_distinct this buf (objects p) s Hne Hs)
        as [-> _].
    - by destruct (Buffer_move_assign_distinct this buf (objects p) b s
                     Hne Hb Hs) as [-> _]. }
  assert (Hworld : world p' = world p).
  { destruct Hop as [[-> Hfree]|[-> _]]; subst p'; simpl;
      [by rewrite Hfree|done]. }
  destruct Hsrc as (s' & Hs' & ->).
  split; [by eauto|].
  split.
  { destruct (decide (this = buf)) as [->|Hne]; [by eauto|].
    exists s. by rewrite Hdst. }
  split; [done|].
  split.
  { simpl. rewrite Hs'. simpl. reflexivity. }
  split.
  { intros Hne. split; [by apply Hdst|].
    simpl. rewrite (Hdst Hne). simpl.
    pose proof (Buffer_dtor_cases s (world p')) as Hd.
    destruct (isInitialized s).
    - by destruct Hd as (_ & _ & _ & ->).
    - rewrite Hd. by rewrite app_nil_r. }
  intros Hp ops.
  assert (sole_owners (run api_result ops p')) as Hrun.
  { apply run_sole_owners. subst p'. by apply step_sole_owners. }
  split; [done|]. by destruct Hrun as (_ & _ & _ & _ & Hnodup).
Qed.

(** C10.  A move assignment [b = move(a)] makes no call, so it
    releases nothing: the members of [b], its two handles among them,
    are overwritten by those of [a], and the buffer [b] held stays live
    in the allocator.  If [b] was initialised, then from a state that
    keeps the ownership discipline no sequence of buffer operations
    after the assignment ever releases the buffer [b] held. *)
Theorem move_assign_leaks_target (p : Program) (this buf : N)
    (b a : Buffer) :
  sole_owners p →
  objects p !! this = Some b → objects p !! buf = Some a →
  isInitialized b = true →
  let p' := step api_result (MoveAssign this buf) p in
  world p' = world p
  ∧ (this ≠ buf → objects p' !! this = Some a)
  ∧ binding (world p') !! vertexBuffer b = Some (allocation b)
  ∧ ∀ ops al,
      (vertexBuffer b, al) ∉ released (world (run api_result ops p')).
Proof.
  intros Hp Hb Ha Hinit p'.
  pose proof Hp as (Hlive & Huniq & Hissued & Hdead & Hnodup).
  pose proof (Hlive this b Hb Hinit) as Hbl.
  split; [done|].
  split.
  { intros Hne. subst p'. simpl.
    by destruct (Buffer_move_assign_distinct this buf (objects p) b a
                   Hne Hb Ha) as [-> _]. }
  split; [by subst p'; simpl; eauto|].
  assert (Horph : orphaned (vertexBuffer b) p').
  { subst p'. simpl. unfold orphaned. simpl.
    split; [by eauto|]. split; [by eauto|].
    intros x d Hd Hi Hvb.
    destruct (Buffer_move_assign_origin this buf (objects p) x d Hd Hi)
      as (x0 & Hx0 & Hc & Hn).
    assert (x0 = this) as -> by (by apply (Huniq x0 this d b)).
    assert (x ≠ buf) as Hxb by (apply Hn; eauto).
    destruct Hc as [<-|[-> ->]]; [|done].
    destruct (Buffer_move_assign_distinct this buf (objects p) b a)
      as [Hthis _]; [done..|].
    assert (d = a) as -> by congruence.
    assert (a = b) as -> by congruence.
    apply Hxb. by apply (Huniq this buf b b). }
  intros ops al Hin.
  apply (run_orphaned _ _ _ Horph) in Hin.
  destruct (Hdead _ _ Hin) as [_ Hnone0].
  replace (world p') with (world p) in Hnone0 by done.
  congruence.
Qed.

End OwnershipFacts.

(** * The theorems at work on two small buffers *)

Section Witnesses.
Import Buffers Objects Scenario.

Example two_buffers_objects :
  objects two_buffers !! 10%N = Some first_buffer
  ∧ objects two_buffers !! 11%N = Some second_buffer
  ∧ memory (world two_buffers) !! 2%N = Some [x00; x00; x00; x00]
  ∧ memory (world two_buffers) !! 4%N = Some [x00; x00; x00; x00].
Proof. by vm_compute. Qed.

Lemma loadData_copies_size_bytes_witness :
  ∃ w',
    loadData always_succeeds second_buffer five_bytes 7 (world two_buffers)
    = (Ok VK_SUCCESS, w')
    ∧ calls_since (world two_buffers) w'
      = [vmaMapMemory_call 2 4; memcpy_call 4 five_bytes 4;
         vmaUnmapMemory_call 2 4]
    ∧ memory w' !! 4%N = Some [x61; x62; x63; x64]
    ∧ loadData always_succeeds second_buffer five_bytes 0 (world two_buffers)
      = (Ok VK_SUCCESS, w').
Proof.
  eexists. split; [reflexivity|].
  destruct (loadData_copies_size_bytes always_succeeds second_buffer
              five_bytes 7 (world two_buffers) _ eq_refl)
    as [(Hcalls & Hmem & _) Hoffset].
  split; [|split].
  - unfold calls_since. rewrite Hcalls. by vm_compute.
  - rewrite Hmem. by vm_compute.
  - apply Hoffset.
Defined.

Lemma loadData_map_failure_witness :
  ∃ w',
    loadData map_refused second_buffer five_bytes 0 (world two_buffers)
    = (Ok VK_ERROR_MEMORY_MAP_FAILED, w')
    ∧ calls_since (world two_buffers) w' = [vmaMapMemory_call 2 4]
    ∧ memory w' = memory (world two_buffers).
Proof.
  destruct (loadData_map_failure map_refused second_buffer five_bytes 0
              (world two_buffers)) as (w' & Hrun & Hfail & _).
  exists w'. split; [exact Hrun|].
  destruct Hfail as (Hcalls & Hmem & _); [discriminate|].
  split; [exact Hcalls|exact Hmem].
Defined.

Lemma loadData_round_trip_witness :
  ∃ w',
    loadData always_succeeds second_buffer five_bytes 0 (world two_buffers)
    = (Ok VK_SUCCESS, w')
    ∧ (∃ region', memory w' !! 4%N = Some region'
                  ∧ take 4 region' = [x61; x62; x63; x64])
    ∧ ∀ w'', loadData always_succeeds second_buffer five_bytes 0 w'
             = (Ok VK_SUCCESS, w'') → memory w'' = memory w'.
Proof.
  eexists. split; [reflexivity|].
  edestruct (loadData_round_trip always_succeeds second_buffer five_bytes
               [x00; x00; x00; x00] 0 (world two_buffers))
    as [(region' & Hregion & Htake & _) Hagain];
    [by vm_compute | simpl; lia | reflexivity |].
  split.
  - exists region'. split; [exact Hregion|exact Htake].
  - intros w''. apply Hagain.
Defined.

Example second_loaded_content :
  buffer_content second_loaded 3 = Some [x61; x62; x63; x64]
  ∧ buffer_content second_loaded 1 = Some [x00; x00; x00; x00]
  ∧ last_handle second_loaded = 4%N.
Proof. by vm_compute. Qed.

Lemma copyDataFrom_copies_witness :
  ∃ w',
    copyDataFrom always_succeeds first_buffer 3 7 8 second_loaded
    = (Ok (), w')
    ∧ calls_since second_loaded w' = transfer_calls first_buffer 3 7 8 5
    ∧ buffer_content w' 3 = Some [x61; x62; x63; x64]
    ∧ buffer_content w' 1 = Some [x61; x62; x63; x64].
Proof.
  exists (after (copyDataFrom always_succeeds first_buffer 3 7 8)
            second_loaded).
  assert (Hrun : copyDataFrom always_succeeds first_buffer 3 7 8
                   second_loaded
                 = (Ok (), after (copyDataFrom always_succeeds first_buffer
                                    3 7 8) second_loaded))
    by (by vm_compute).
  split; [exact Hrun|].
  destruct (copyDataFrom_copies always_succeeds first_buffer 3 7 8
              second_loaded
              (after (copyDataFrom always_succeeds first_buffer 3 7 8)
                 second_loaded)
              4 2 [x61; x62; x63; x64] [x00; x00; x00; x00])
    as (_ & Hcalls & _ & content & Hsrc & Hdst & Hidle);
    [by vm_compute | by vm_compute | by vm_compute | by vm_compute
    | simpl; lia | reflexivity | exact Hrun |].
  rewrite (Hidle eq_refl) in Hsrc, Hdst.
  split; [exact Hcalls|]. split; [exact Hsrc|exact Hdst].
Defined.

Lemma copyDataFrom_failure_witness :
  first_failure begin_refused
    (checked_steps begin_refused first_buffer 3 7 8 second_loaded)
  = Some FAILED_CANNOT_BEGIN_CMD_BUFFER
  ∧ ∃ w',
      copyDataFrom begin_refused first_buffer 3 7 8 second_loaded
      = (Throw FAILED_CANNOT_BEGIN_CMD_BUFFER, w')
      ∧ calls_since second_loaded w'
        = [vkAllocateCommandBuffers_call 1
             {| commandPool := 8; level := VK_COMMAND_BUFFER_LEVEL_PRIMARY;
                allocateInfo_commandBufferCount := 1 |};
           vkBeginCommandBuffer_call 5
             {| beginInfo_flags :=
                  VK_COMMAND_BUFFER_USAGE_ONE_TIME_SUBMIT_BIT |}]
      ∧ fst <$> cmdbufs w' !! 5%N = Some 8%N.
Proof.
  assert (Hfirst : first_failure begin_refused
                     (checked_steps begin_refused first_buffer 3 7 8
                        second_loaded)
                   = Some FAILED_CANNOT_BEGIN_CMD_BUFFER) by (by vm_compute).
  split; [exact Hfirst|].
  destruct (copyDataFrom_failure begin_refused first_buffer 3 7 8
              second_loaded) as (res & w' & Hrun & Hcase).
  rewrite Hfirst in Hcase.
  destruct Hcase as (-> & _ & Hcalls & _ & _ & _ & _ & _ & Hlive).
  exists w'. split; [exact Hrun|]. split; [exact Hcalls|].
  apply Hlive. discriminate.
Defined.

(** C7 as stated fails: when recording cannot begin, the transfer
    throws and the command buffer it had allocated, which was not live
    before, is left live in the pool: no call frees it. *)
Lemma copyDataFrom_leaves_command_buffer_counterexample :
  let r := copyDataFrom begin_refused first_buffer 3 7 8 second_loaded in
  r.1 = Throw FAILED_CANNOT_BEGIN_CMD_BUFFER
  ∧ cmdbufs second_loaded !! 5%N = None
  ∧ cmdbufs r.2 !! 5%N = Some (8%N, [])
  ∧ filter (λ c, is_free_call c = true) (calls r.2) = [].
Proof. by vm_compute. Qed.

Lemma move_transfers_ownership_witness :
  let p' := step always_succeeds (MoveAssign 10 11) two_buffers in
  isInitialized <$> objects p' !! 11%N = Some false
  ∧ objects p' !! 10%N = Some second_buffer
  ∧ calls (world (step always_succeeds (Delete 11) p')) = calls (world p')
  ∧ released (world (run always_succeeds [Delete 11; Delete 10] p'))
    = [(3%N, 4%N)]
  ∧ NoDup (released
             (world (run always_succeeds [Delete 10; Delete 11; Delete 10]
                       p'))).*1.
Proof.
  intros p'.
  destruct (move_transfers_ownership always_succeeds two_buffers
              (MoveAssign 10 11) 10 11 second_buffer)
    as ((s' & Hs' & Hinit) & _ & _ & Hdel & Hdst & Hnodup);
    [by vm_compute
    | right; split; [done|exists first_buffer; by vm_compute] |].
  fold p' in Hs', Hdel, Hdst, Hnodup.
  split; [by rewrite Hs'; simpl; rewrite Hinit|].
  split; [by apply Hdst|].
  split; [by rewrite Hdel|].
  split; [by vm_compute|].
  apply Hnodup. apply run_sole_owners, sole_owners_empty.
Defined.

Lemma move_assign_leaks_target_witness :
  let p' := step always_succeeds (MoveAssign 10 11) two_buffers in
  world p' = world two_buffers
  ∧ objects p' !! 10%N = Some second_buffer
  ∧ binding (world p') !! 1%N = Some 2%N
  ∧ (1%N, 2%N)
      ∉ released (world (run always_succeeds [Delete 10; Delete 11] p')).
Proof.
  intros p'.
  destruct (move_assign_leaks_target always_succeeds two_buffers 10 11
              first_buffer second_buffer)
    as (Hworld & Hdst & Hlive & Hnever);
    [apply run_sole_owners, sole_owners_empty
    | by vm_compute | by vm_compute | reflexivity |].
  fold p' in Hworld, Hdst, Hlive, Hnever.
  split; [exact Hworld|]. split; [by apply Hdst|].
  split; [exact Hlive|]. apply Hnever.
Defined.

End Witnesses.

(** * Further properties of the selector *)

Section SelectorEdges.
Import Selector.

Lemma testbit_uint32_below (filter : Z) (i : N) :
  is_uint32 filter → Z.testbit filter (Z.of_N i) = true → (i < 32)%N.
Proof.
  intros [Hlo Hhi] Hbit. unfold uint32_max in Hhi.
  destruct (decide (i < 32)%N) as [|Hge]; [done|]. exfalso.
  destruct (decide (filter = 0)) as [->|Hnz].
  - by rewrite Z.bits_0 in Hbit.
  - rewrite Z.bits_above_log2 in Hbit; [done|lia|].
    apply Z.log2_lt_pow2; [lia|].
    eapply Z.lt_le_trans; [exact Hhi|].
    apply Z.pow_le_mono_r; lia.
Qed.

(** X1.  The index [getMemoryType] returns is a valid one: it is below
    the number of memory types it was given and below 32, the width of
    the filter. *)
Theorem getMemoryType_index_in_range (memoryTypes : list Z)
    (properties filter : Z) (i : N) :
  is_uint32 filter →
  getMemoryType memoryTypes properties filter = Ok i →
  (N.to_nat i < length memoryTypes)%nat ∧ (i < 32)%N.
Proof.
  intros Hf Hrun.
  pose proof (getMemoryType_from_spec memoryTypes properties filter Hf 0%N)
    as Hspec.
  change (wrap32 (2 ^ Z.of_N 0)) with 1 in Hspec.
  unfold getMemoryType in Hrun. rewrite Hrun in Hspec.
  destruct Hspec as (_ & Hbit & (flags & Hl & _) & _).
  rewrite N.sub_0_r in Hl. split.
  - by apply lookup_lt_Some in Hl.
  - by apply (testbit_uint32_below filter).
Qed.

Lemma getMemoryType_index_in_range_witness :
  getMemoryType [7; 1; 6; 6] 6 6 = Ok 2%N
  ∧ (N.to_nat 2 < length [7; 1; 6; 6])%nat ∧ (2 < 32)%N.
Proof.
  assert (Hf : is_uint32 6) by (unfold is_uint32, uint32_max; lia).
  split; [reflexivity|].
  exact (getMemoryType_index_in_range [7; 1; 6; 6] 6 6 2 Hf eq_refl).
Defined.

(** X2.  With no memory types, or with a filter that accepts none,
    [getMemoryType] throws, whatever flags are required. *)
Theorem getMemoryType_nothing_to_choose (memoryTypes : list Z)
    (properties : Z) :
  (∀ filter,
     getMemoryType [] properties filter = Throw CannotFindSuitableMemoryType)
  ∧ getMemoryType memoryTypes properties 0
    = Throw CannotFindSuitableMemoryType.
Proof.
  split; [done|].
  assert (Hf : is_uint32 0) by (unfold is_uint32, uint32_max; lia).
  pose proof (getMemoryType_from_spec memoryTypes properties 0 Hf 0%N)
    as Hspec.
  change (wrap32 (2 ^ Z.of_N 0)) with 1 in Hspec.
  unfold getMemoryType.
  destruct (getMemoryType_from memoryTypes properties 0 0%N 1) as [k|e].
  - destruct Hspec as (_ & Hbit & _). by rewrite Z.bits_0 in Hbit.
  - by destruct Hspec as (-> & _).
Qed.

Lemma getMemoryType_from_app (l l' : list Z) (properties filter : Z) (k : N) :
  ∀ i mask,
    getMemoryType_from l properties filter i mask = Ok k →
    getMemoryType_from (l ++ l') properties filter i mask = Ok k.
Proof.
  induction l as [|t rest IH]; intros i mask; simpl; [done|].
  destruct (negb _ && _); [done|]. apply IH.
Qed.

(** X3.  A selection that succeeds depends only on the memory types up
    to the selected one: listing further types after them, as a device
    with more memory types would, gives the same index. *)
Theorem getMemoryType_more_types (memoryTypes more : list Z)
    (properties filter : Z) (i : N) :
  getMemoryType memoryTypes properties filter = Ok i →
  getMemoryType (memoryTypes ++ more) properties filter = Ok i.
Proof. apply getMemoryType_from_app. Qed.

Lemma getMemoryType_more_types_witness :
  getMemoryType [7; 1; 6] 6 6 = Ok 2%N
  ∧ getMemoryType ([7; 1; 6] ++ [6; 14]) 6 6 = Ok 2%N.
Proof.
  split; [reflexivity|].
  exact (getMemoryType_more_types [7; 1; 6] [6; 14] 6 6 2 eq_refl).
Defined.

End SelectorEdges.

(** * Further properties of construction and destruction *)

Section LifecycleFacts.
Import Buffers Objects Scenario Backing.

Variable api_result : Call → World → VkResult.

(** X4.  The constructor makes its one creation call and then either
    returns or throws, by the answer to that call.  It returns exactly on
    [VK_SUCCESS]: the object has the device, allocator and size given and
    two non-null handles, its buffer holds [bufferSize] bytes, every
    other buffer and allocation is as before, and it reports itself
    initialised exactly if the device pointer is not null.  On any other
    answer it throws the buffer-creation error and no buffer, memory or
    handle has been added. *)
Theorem Buffer_ctor_outcome (dev vma physicalDev bufferSize : N)
    (bufferUsageFlags memoryUsage memoryFlags : Z)
    (usedQueues : option (gset N)) (w : World) :
  ∃ createInfo allocInfo res w',
    Buffer_ctor api_result dev vma physicalDev bufferSize bufferUsageFlags
      memoryUsage memoryFlags usedQueues w = (res, w')
    ∧ calls w' = calls w ++ [vmaCreateBuffer_call vma createInfo allocInfo]
    ∧ match res with
      | Ok b =>
          api_result (vmaCreateBuffer_call vma createInfo allocInfo) w
          = VK_SUCCESS
          ∧ logicalDev b = dev ∧ allocator b = vma ∧ size b = bufferSize
          ∧ vertexBuffer b ≠ VK_NULL_HANDLE ∧ allocation b ≠ VK_NULL_HANDLE
          ∧ isInitialized b = negb (dev =? nullptr)%N
          ∧ (∃ content, buffer_content w' (vertexBuffer b) = Some content
                        ∧ length content = N.to_nat bufferSize)
          ∧ (∀ vb, vb ≠ vertexBuffer b → binding w' !! vb = binding w !! vb)
          ∧ (∀ al, al ≠ allocation b → memory w' !! al = memory w !! al)
      | Throw e =>
          api_result (vmaCreateBuffer_call vma createInfo allocInfo) w
          ≠ VK_SUCCESS
          ∧ e = CannotCreateBuffer
          ∧ binding w' = binding w ∧ memory w' = memory w
          ∧ last_handle w' = last_handle w
      end.
Proof.
  unfold Buffer_ctor, CHECK_VK_SUCCESS, createVertexBufferConcurrent,
    createVertexBuffer, vmaCreateBuffer, mbind, M_bind, mret, M_ret, throw.
  destruct (has_value usedQueues && _);
    cbv beta iota zeta;
    match goal with
    | |- context [api_result ?c w =? VK_SUCCESS] =>
        destruct (api_result c w =? VK_SUCCESS) eqn:Hr;
        cbv beta iota; rewrite ?Hr
    end.
  all: eexists _, _, _, _; (split; [reflexivity|]); (split; [reflexivity|]).
  all: try (apply Z.eqb_neq in Hr; done).
  all: apply Z.eqb_eq in Hr; (split; [exact Hr|]).
  all: cbn [logicalDev allocator size vertexBuffer allocation
            set_allocation set_vertexBuffer].
  all: (split; [done|]); (split; [done|]); (split; [done|]).
  all: (split; [unfold VK_NULL_HANDLE; lia|]).
  all: (split; [unfold VK_NULL_HANDLE; lia|]).
  all: (split; [reflexivity|]).
  all: split;
    [ eexists; unfold buffer_content; cbn [binding memory log set_last_handle
                                            set_binding set_memory];
      rewrite lookup_insert_eq; cbn [mbind option_bind];
      rewrite lookup_insert_eq; split; [reflexivity|apply length_replicate] |].
  all: split; intros x Hx;
    cbn [binding memory log set_last_handle set_binding set_memory];
    by rewrite lookup_insert_ne.
Qed.

Lemma Buffer_dtor_memory b w :
  memory (after (Buffer_dtor b) w)
  = if isInitialized b then delete (allocation b) (memory w) else memory w.
Proof. unfold after, Buffer_dtor. by destruct (isInitialized b). Qed.

(** X5.  Constructing a buffer on a non-null device and destroying it
    gives everything back: in a world whose handles have all been issued
    in order, the bindings and the memory are then exactly as before the
    construction, and the pair the constructor obtained is the one
    released. *)
Theorem construct_destroy_round_trip (dev vma physicalDev bufferSize : N)
    (bufferUsageFlags memoryUsage memoryFlags : Z)
    (usedQueues : option (gset N)) (w w1 : World) (b : Buffer) :
  well_backed w → dev ≠ nullptr →
  Buffer_ctor api_result dev vma physicalDev bufferSize bufferUsageFlags
    memoryUsage memoryFlags usedQueues w = (Ok b, w1) →
  let w2 := after (Buffer_dtor b) w1 in
  binding w2 = binding w
  ∧ memory w2 = memory w
  ∧ released w2 = released w ++ [(vertexBuffer b, allocation b)]
  ∧ last (calls w2)
    = Some (vmaDestroyBuffer_call vma (vertexBuffer b) (allocation b)).
Proof.
  intros (Hbound & _ & Hissued) Hdev Hctor w2.
  destruct (Buffer_ctor_cases api_result dev vma physicalDev bufferSize
              bufferUsageFlags memoryUsage memoryFlags usedQueues w)
    as (res & w' & Hrun & Hrel & _ & _ & Hres).
  rewrite Hctor in Hrun. injection Hrun as <- <-.
  destruct Hres as (Hb & Hbnd & Hmem & Hlh).
  assert (Hinit : isInitialized b = true).
  { subst b. unfold isInitialized. simpl.
    apply negb_true_iff, N.eqb_neq. exact Hdev. }
  pose proof (Buffer_dtor_cases b w1) as Hd.
  pose proof (Buffer_dtor_memory b w1) as Hm.
  rewrite Hinit in Hd, Hm. destruct Hd as (Hbnd2 & Hrel2 & _ & Hcalls).
  subst w2. rewrite Hbnd2, Hm, Hrel2, Hbnd, Hmem, Hrel, Hcalls.
  assert (binding w !! N.succ (last_handle w) = None) as Hfresh1.
  { destruct (binding w !! N.succ (last_handle w)) as [al|] eqn:Hl; [|done].
    destruct (Hbound _ _ Hl) as (Hle & _). lia. }
  assert (memory w !! N.succ (N.succ (last_handle w)) = None) as Hfresh2.
  { destruct (memory w !! N.succ (N.succ (last_handle w))) as [m|] eqn:Hl;
      [|done].
    assert ((N.succ (N.succ (last_handle w)) ≤ last_handle w)%N)
      by (apply Hissued; eauto). lia. }
  subst b. cbn [vertexBuffer allocation allocator].
  split; [by apply delete_insert_id|].
  split; [by apply delete_insert_id|].
  split; [done|]. apply last_snoc.
Qed.

Lemma well_backed_empty : well_backed empty_world.
Proof.
  unfold well_backed, empty_world. simpl.
  split; [by intros vb al Hl; rewrite lookup_empty in Hl|].
  split; [by intros vb1 vb2 al Hl; rewrite lookup_empty in Hl|].
  intros al [m Hm]. by rewrite lookup_empty in Hm.
Qed.

Lemma well_backed_frame w w' :
  well_backed w → binding w' = binding w → same_allocations w w' →
  (last_handle w ≤ last_handle w')%N → well_backed w'.
Proof.
  intros (Hbound & Hinj & Hissued) Hbnd Hmem Hlh.
  unfold well_backed. rewrite Hbnd.
  split.
  { intros vb al Hl. destruct (Hbound vb al Hl) as (H1 & H2 & H3).
    split; [lia|]. split; [lia|]. by apply Hmem. }
  split; [done|].
  intros al Hal. apply Hmem, Hissued in Hal. lia.
Qed.

Lemma same_shape_allocations (mem mem' : gmap N (list byte)) :
  same_shape mem mem' → ∀ al, is_Some (mem' !! al) ↔ is_Some (mem !! al).
Proof.
  intros Hshape al. specialize (Hshape al).
  rewrite <- (fmap_is_Some length (mem' !! al)).
  rewrite <- (fmap_is_Some length (mem !! al)). by rewrite Hshape.
Qed.

Lemma loadData_same_allocations b data offset w :
  same_allocations w (after (loadData api_result b data offset) w).
Proof.
  unfold same_allocations, after. rewrite loadData_unfold. simpl.
  intros al. destruct (_ =? VK_SUCCESS); simpl; [|done].
  apply lookup_alter_is_Some.
Qed.

Lemma copyDataFrom_same_allocations b src q pool w :
  same_allocations w (after (copyDataFrom api_result b src q pool) w).
Proof.
  destruct (copyDataFrom_cases api_result b src q pool w)
    as (res & w' & Hrun & _ & _ & Hres).
  unfold same_allocations, after. rewrite Hrun. simpl.
  destruct res as [[]|e].
  - destruct Hres as (_ & _ & _ & ->).
    apply same_shape_allocations. intros al.
    rewrite execute_same_shape. apply foldl_execute_same_shape.
  - by destruct Hres as (_ & _ & -> & _).
Qed.

(** Every operation keeps the live buffers backed, in a state that keeps
    the ownership discipline. *)
Lemma step_well_backed op p :
  sole_owners p → well_backed (world p) →
  well_backed (world (step api_result op p)).
Proof.
  intros Hp Hw.
  destruct op as [this dev vma pd sz us mu mf uq | this buf | this buf
                 | this | this data off | this src q pool
                 | this src q pool | this src cb | this src cb]; simpl.
  - destruct (objects p !! this) eqn:Hfree; [done|].
    destruct (Buffer_ctor_cases api_result dev vma pd sz us mu mf uq (world p))
      as (res & w' & Hrun & _ & _ & _ & Hres).
    rewrite Hrun. destruct Hw as (Hbound & Hinj & Hissued).
    destruct res as [b|e]; simpl.
    + destruct Hres as (_ & Hbnd & Hmem & Hlh).
      unfold well_backed. rewrite Hbnd, Hmem, Hlh.
      split.
      { intros vb al. rewrite lookup_insert. case_decide as Hvb.
        - intros [= <-]. subst vb. split; [lia|]. split; [lia|].
          rewrite lookup_insert_eq. eauto.
        - intros Hl. destruct (Hbound vb al Hl) as (H1 & H2 & H3).
          split; [lia|]. split; [lia|].
          rewrite lookup_insert_ne by lia. done. }
      split.
      { intros vb1 vb2 al. rewrite !lookup_insert.
        repeat case_decide; subst; try done.
        - intros [= <-] Hl. destruct (Hbound _ _ Hl) as (_ & H2 & _). lia.
        - intros Hl [= <-]. destruct (Hbound _ _ Hl) as (_ & H2 & _). lia.
        - apply Hinj. }
      intros al. rewrite lookup_insert. case_decide; [intros _; lia|].
      intros Hal. apply Hissued in Hal. lia.
    + destruct Hres as (_ & Hbnd & Hmem & Hlh).
      unfold well_backed. by rewrite Hbnd, Hmem, Hlh.
  - by destruct (objects p !! this).
  - done.
  - destruct (objects p !! this) as [b|] eqn:Hb; [|done]. simpl.
    pose proof (Buffer_dtor_cases b (world p)) as Hd.
    pose proof (Buffer_dtor_memory b (world p)) as Hm.
    destruct (isInitialized b) eqn:Hinit; [|by rewrite Hd].
    destruct Hd as (Hbnd & _ & Hlh & _).
    destruct Hp as (Hlive & _).
    pose proof (Hlive this b Hb Hinit) as Hbl.
    destruct Hw as (Hbound & Hinj & Hissued).
    unfold well_backed. rewrite Hbnd, Hm, Hlh.
    split.
    { intros vb al Hl. apply lookup_delete_Some in Hl as [Hne Hl].
      destruct (Hbound vb al Hl) as (H1 & H2 & H3).
      split; [done|]. split; [done|].
      rewrite lookup_delete_ne; [done|].
      intros Heq. apply Hne. apply (Hinj _ _ al); [|done]. by rewrite <- Heq. }
    split.
    { intros vb1 vb2 al Hl1 Hl2.
      apply lookup_delete_Some in Hl1 as [_ Hl1].
      apply lookup_delete_Some in Hl2 as [_ Hl2]. eauto. }
    intros al [m Hal]. apply lookup_delete_Some in Hal as [_ Hal]. eauto.
  - destruct (objects p !! this) as [b|]; [|done]. simpl.
    pose proof (loadData_keeps_buffers api_result b data off (world p))
      as (Hbnd & _ & Hlh).
    eapply well_backed_frame; [done|done| |done].
    apply loadData_same_allocations.
  - destruct (objects p !! this) as [b|]; [|done].
    destruct (objects p !! src) as [s|]; [|done]. simpl.
    pose proof (copyDataFrom_keeps_buffers api_result b (vertexBuffer s) q
                  pool (world p)) as (Hbnd & _ & Hlh).
    eapply well_backed_frame; [done|done| |done].
    apply copyDataFrom_same_allocations.
  - destruct (objects p !! this) as [b|]; [|done]. simpl.
    pose proof (copyDataFrom_keeps_buffers api_result b src q pool (world p))
      as (Hbnd & _ & Hlh).
    eapply well_backed_frame; [done|done| |done].
    apply copyDataFrom_same_allocations.
  - destruct (objects p !! this) as [b|]; [|done].
    destruct (objects p !! src) as [s|]; [|done]. simpl.
    pose proof (cmdCopyDataFrom_keeps_buffers b (vertexBuffer s) cb (world p))
      as (Hbnd & _ & Hlh).
    eapply well_backed_frame; [done|done| |done]. done.
  - destruct (objects p !! this) as [b|]; [|done]. simpl.
    pose proof (cmdCopyDataFrom_keeps_buffers b src cb (world p))
      as (Hbnd & _ & Hlh).
    eapply well_backed_frame; [done|done| |done]. done.
Qed.

Lemma run_disciplined ops p :
  sole_owners p → well_backed (world p) →
  sole_owners (run api_result ops p)
  ∧ well_backed (world (run api_result ops p)).
Proof.
  revert p. induction ops as [|op ops IH]; intros p Hp Hw; simpl; [done|].
  apply IH; [by apply step_sole_owners|by apply step_well_backed].
Qed.

End LifecycleFacts.

(** * Further properties of ownership *)

Section ReachableFacts.
Import Buffers Objects Scenario Backing.

Variable api_result : Call → World → VkResult.

(** X6.  In every state a program reaches from the empty one by buffer
    operations, an initialised object holds a live buffer with memory
    behind it, no two initialised objects hold the same buffer, a
    released buffer is no longer live, and no buffer has been released
    twice. *)
Theorem reachable_states_disciplined (ops : list Op) :
  let p := run api_result ops empty_program in
  (∀ a b, objects p !! a = Some b → isInitialized b = true →
     binding (world p) !! vertexBuffer b = Some (allocation b)
     ∧ is_Some (buffer_content (world p) (vertexBuffer b)))
  ∧ (∀ a1 a2 b1 b2,
       objects p !! a1 = Some b1 → objects p !! a2 = Some b2 →
       isInitialized b1 = true → isInitialized b2 = true →
       vertexBuffer b1 = vertexBuffer b2 → a1 = a2)
  ∧ (∀ vb al, (vb, al) ∈ released (world p) → binding (world p) !! vb = None)
  ∧ NoDup (released (world p)).*1.
Proof.
  intros p.
  destruct (run_disciplined api_result ops empty_program sole_owners_empty
              well_backed_empty)
    as [(Hlive & Huniq & _ & Hdead & Hnodup) (Hbound & _)].
  fold p in Hlive, Huniq, Hdead, Hnodup, Hbound.
  split.
  { intros a b Hb Hinit. pose proof (Hlive a b Hb Hinit) as Hl.
    split; [done|]. unfold buffer_content. rewrite Hl. simpl.
    by destruct (Hbound _ _ Hl) as (_ & _ & Hm). }
  split; [done|]. split; [|done].
  intros vb al Hin. by destruct (Hdead vb al Hin).
Qed.

(** X7.  A buffer constructed with a null device pointer is allocated
    all the same, but the object reports itself uninitialised: its
    destruction releases nothing, and no later operation ever releases
    the buffer it obtained. *)
Theorem null_device_buffer_is_never_released (p : Program)
    (this vma physicalDev bufferSize : N)
    (bufferUsageFlags memoryUsage memoryFlags : Z)
    (usedQueues : option (gset N)) (b : Buffer) (w' : World) :
  sole_owners p → objects p !! this = None →
  Buffer_ctor api_result nullptr vma physicalDev bufferSize bufferUsageFlags
    memoryUsage memoryFlags usedQueues (world p) = (Ok b, w') →
  let p' := step api_result
              (New this nullptr vma physicalDev bufferSize bufferUsageFlags
                 memoryUsage memoryFlags usedQueues) p in
  objects p' !! this = Some b
  ∧ isInitialized b = false
  ∧ binding (world p') !! vertexBuffer b = Some (allocation b)
  ∧ world (step api_result (Delete this) p') = world p'
  ∧ ∀ ops al,
      (vertexBuffer b, al) ∉ released (world (run api_result ops p')).
Proof.
  intros Hp Hfree Hctor p'.
  destruct (Buffer_ctor_cases api_result nullptr vma physicalDev bufferSize
              bufferUsageFlags memoryUsage memoryFlags usedQueues (world p))
    as (res & w1 & Hrun & Hrel & _ & _ & Hres).
  rewrite Hctor in Hrun. injection Hrun as <- <-.
  destruct Hres as (Hb & Hbnd & _ & Hlh).
  assert (Hp' : p' = {| objects := <[this := b]> (objects p); world := w' |}).
  { subst p'. simpl. by rewrite Hfree, Hctor. }
  assert (Hinit : isInitialized b = false) by (by subst b).
  assert (Hnew : objects p' !! this = Some b)
    by (by rewrite Hp'; simpl; rewrite lookup_insert_eq).
  destruct Hp as (Hlive & Huniq & Hissued & Hdead & Hnodup).
  assert (Hbl : binding (world p') !! vertexBuffer b = Some (allocation b)).
  { rewrite Hp'. simpl. rewrite Hbnd. subst b. simpl.
    by rewrite lookup_insert_eq. }
  split; [done|]. split; [done|]. split; [done|].
  split.
  { simpl. rewrite Hnew. simpl.
    pose proof (Buffer_dtor_cases b (world p')) as Hd.
    by rewrite Hinit in Hd. }
  assert (Horph : orphaned (vertexBuffer b) p').
  { unfold orphaned. split; [by eauto|].
    split; [rewrite Hp'; simpl; rewrite Hlh; subst b; simpl; lia|].
    intros a d Hd Hi. rewrite Hp' in Hd. simpl in Hd.
    destruct (decide (a = this)) as [->|Hne].
    - rewrite lookup_insert_eq in Hd. injection Hd as <-. congruence.
    - rewrite lookup_insert_ne in Hd by done.
      pose proof (Hissued _ _ (Hlive a d Hd Hi)) as Hle.
      subst b. simpl. lia. }
  intros ops al Hin.
  apply (run_orphaned api_result _ _ _ Horph) in Hin.
  rewrite Hp' in Hin. simpl in Hin. rewrite Hrel in Hin.
  destruct (Hdead _ _ Hin) as [Hle _]. subst b. simpl in Hle. lia.
Qed.

(** X8.  Initialised buffers do not disturb one another.  In a
    disciplined state, destroying an initialised object, loading data
    into it, or a transfer into it on an idle queue leaves the content of
    the buffer of every other initialised object as it was. *)
Theorem other_buffers_are_untouched (p : Program) (a1 a2 : N)
    (b1 b2 : Buffer) :
  sole_owners p → well_backed (world p) → a1 ≠ a2 →
  objects p !! a1 = Some b1 → objects p !! a2 = Some b2 →
  isInitialized b1 = true → isInitialized b2 = true →
  (let p' := step api_result (Delete a1) p in
   objects p' !! a2 = Some b2
   ∧ buffer_content (world p') (vertexBuffer b2)
     = buffer_content (world p) (vertexBuffer b2))
  ∧ (∀ data offset,
       buffer_content (world (step api_result (LoadData a1 data offset) p))
         (vertexBuffer b2)
       = buffer_content (world p) (vertexBuffer b2))
  ∧ (∀ src q pool,
       pending (world p) !! q = None →
       buffer_content
         (world (step api_result (CopyDataFromHandle a1 src q pool) p))
         (vertexBuffer b2)
       = buffer_content (world p) (vertexBuffer b2)).
Proof.
  intros (Hlive & Huniq & _) (_ & Hinj & _) Hne Hb1 Hb2 Hi1 Hi2.
  pose proof (Hlive _ _ Hb1 Hi1) as Hl1.
  pose proof (Hlive _ _ Hb2 Hi2) as Hl2.
  assert (Hvb : vertexBuffer b1 ≠ vertexBuffer b2).
  { intros Heq. apply Hne. by apply (Huniq a1 a2 b1 b2). }
  assert (Hal : allocation b1 ≠ allocation b2).
  { intros Heq. apply Hvb. apply (Hinj _ _ (allocation b1)); [done|].
    by rewrite Heq. }
  split; [|split].
  - simpl. rewrite Hb1. simpl.
    split; [by rewrite lookup_delete_ne|].
    pose proof (Buffer_dtor_cases b1 (world p)) as Hd.
    pose proof (Buffer_dtor_memory b1 (world p)) as Hm.
    rewrite Hi1 in Hd, Hm. destruct Hd as (Hbnd & _).
    unfold buffer_content. rewrite Hbnd, Hm.
    rewrite lookup_delete_ne by done. rewrite Hl2. simpl.
    by rewrite lookup_delete_ne.
  - intros data offset. simpl. rewrite Hb1. simpl.
    unfold buffer_content, after. rewrite loadData_unfold. simpl.
    destruct (_ =? VK_SUCCESS); simpl; [|done].
    rewrite Hl2. simpl. by rewrite lookup_alter_ne.
  - intros src q pool Hidle. simpl. rewrite Hb1. simpl.
    destruct (copyDataFrom_cases api_result b1 src q pool (world p))
      as (res & w' & Hrun & Hbnd & _ & Hres).
    unfold buffer_content, after. rewrite Hrun. simpl. rewrite Hbnd, Hl2.
    simpl. destruct res as [[]|e].
    + destruct Hres as (_ & _ & _ & ->). rewrite Hidle. simpl.
      unfold copy_region. rewrite Hl1.
      destruct (binding (world p) !! src) as [sa|]; [|done].
      destruct (memory (world p) !! sa) as [sm|]; [|done].
      destruct (memory (world p) !! allocation b1) as [dm|]; [|done].
      case_bool_decide; [|done]. by rewrite lookup_insert_ne.
    + by destruct Hres as (_ & _ & -> & _).
Qed.

End ReachableFacts.

(** * Further properties of moves *)

Section MoveCompositions.
Import Buffers Objects Scenario.

Variable api_result : Call → World → VkResult.

(** X9.  Moving a buffer out of an object and back restores it: after
    [b = move(a)] followed by [a = move(b)], for two different objects,
    [a] has again every member it had, initialisation included, and [b]
    is left uninitialised; no call is made and no other object changes.
    What [b] held before is overwritten. *)
Theorem move_there_and_back (p : Program) (this buf : N) (b0 a0 : Buffer) :
  this ≠ buf →
  objects p !! this = Some b0 → objects p !! buf = Some a0 →
  let p' := run api_result [MoveAssign this buf; MoveAssign buf this] p in
  objects p' !! buf = Some a0
  ∧ objects p' !! this = Some (set_logicalDev nullptr a0)
  ∧ world p' = world p
  ∧ ∀ x, x ≠ this → x ≠ buf → objects p' !! x = objects p !! x.
Proof.
  intros Hne Hb Ha p'. subst p'. simpl.
  destruct (Buffer_move_assign_distinct this buf (objects p) b0 a0 Hne Hb Ha)
    as [Hthis Hbuf].
  destruct (Buffer_move_assign_distinct buf this
              (Buffer_move_assign this buf (objects p))
              (set_logicalDev nullptr a0) a0) as [Hbuf' Hthis'];
    [done..|].
  split; [done|]. split; [done|]. split; [done|].
  intros x Hx1 Hx2. by rewrite !Buffer_move_assign_other.
Qed.

(** X10.  [loadData] does not check that the object is initialised.
    After [b = move(a)], a successful [loadData] on the moved-from [a]
    still maps the allocation whose handle [a] keeps, and overwrites the
    first [size] bytes of the memory that [b] now owns. *)
Theorem moved_from_object_still_writes (p : Program) (this buf : N)
    (b s : Buffer) (data region : list byte) (offset : N) :
  this ≠ buf →
  objects p !! this = Some b → objects p !! buf = Some s →
  memory (world p) !! allocation s = Some region →
  api_result (vmaMapMemory_call (allocator s) (allocation s)) (world p)
  = VK_SUCCESS →
  let p' := run api_result [MoveAssign this buf; LoadData buf data offset] p in
  objects p' !! this = Some s
  ∧ isInitialized <$> objects p' !! buf = Some false
  ∧ memory (world p') !! allocation s
    = Some (overwrite data (N.to_nat (size s)) region).
Proof.
  intros Hne Hb Hs Hregion Hmap p'. subst p'. simpl.
  destruct (Buffer_move_assign_distinct this buf (objects p) b s Hne Hb Hs)
    as [Hthis Hbuf].
  rewrite Hbuf. simpl. rewrite Hthis, Hbuf. simpl.
  split; [done|]. split; [done|].
  unfold after.
  rewrite (loadData_unfold api_result (set_logicalDev nullptr s)).
  simpl. rewrite Hmap. simpl.
  by rewrite lookup_alter_eq, Hregion.
Qed.

End MoveCompositions.

(** * Further properties of uploads and transfers *)

Section DataFlowFacts.
Import Buffers Objects Scenario Uniform.

Variable api_result : Call → World → VkResult.

(** X11.  The last load wins: after two successful loads into the same
    buffer, memory is what the second load alone would have left,
    provided the first source held the [size] bytes its copy read. *)
Theorem loadData_last_write_wins (this : Buffer) (x y : list byte)
    (offset1 offset2 : N) (w w1 w2 : World) :
  (N.to_nat (size this) ≤ length x)%nat →
  loadData api_result this x offset1 w = (Ok VK_SUCCESS, w1) →
  loadData api_result this y offset2 w1 = (Ok VK_SUCCESS, w2) →
  memory w2
  = alter (overwrite y (N.to_nat (size this))) (allocation this) (memory w).
Proof.
  intros Hx H1 H2.
  destruct (loadData_success_effect _ _ _ _ _ _ H1) as (_ & Hm1 & _).
  destruct (loadData_success_effect _ _ _ _ _ _ H2) as (_ & Hm2 & _).
  rewrite Hm2, Hm1, alter_alter_eq. apply alter_ext. intros m _. simpl.
  unfold overwrite at 1. by rewrite overwrite_drop.
Qed.

Lemma copyDataFrom_idle_memory this src q pool w w' :
  pending w !! q = None →
  copyDataFrom api_result this src q pool w = (Ok (), w') →
  binding w' = binding w
  ∧ memory w'
    = copy_region (binding w) src (vertexBuffer this)
        (whole_buffer (size this)) (memory w).
Proof.
  intros Hidle Hrun.
  destruct (copyDataFrom_cases api_result this src q pool w)
    as (res & w1 & Hrun' & Hbnd & _ & Hres).
  rewrite Hrun in Hrun'. injection Hrun' as <- <-.
  destruct Hres as (_ & _ & _ & Hmem). split; [done|].
  rewrite Hmem, Hidle. reflexivity.
Qed.

(** X12.  Upload through a staging buffer: after a successful load of
    [x] into the staging buffer and a transfer from it that returns, on a
    queue with nothing pending, the destination holds the first bytes of
    [x], as many as its size.  Both buffers are live, the staging buffer
    is at least as large as the destination and [x] fills it. *)
Theorem upload_through_staging (staging dst : Buffer) (x sm dm : list byte)
    (offset q pool da : N) (w w1 w2 : World) :
  binding w !! vertexBuffer staging = Some (allocation staging) →
  memory w !! allocation staging = Some sm →
  binding w !! vertexBuffer dst = Some da →
  memory w !! da = Some dm →
  length dm = N.to_nat (size dst) →
  (size dst ≤ size staging)%N →
  (N.to_nat (size staging) ≤ length x)%nat →
  (N.to_nat (size staging) ≤ length sm)%nat →
  pending w !! q = None →
  loadData api_result staging x offset w = (Ok VK_SUCCESS, w1) →
  copyDataFrom_Buffer api_result dst staging q pool w1 = (Ok (), w2) →
  buffer_content w2 (vertexBuffer dst)
  = Some (take (N.to_nat (size dst)) x).
Proof.
  intros Hsb Hsm Hdb Hdm Hlen Hsz Hx Hfit Hidle Hload Hcopy.
  destruct (loadData_success_effect _ _ _ _ _ _ Hload)
    as (_ & Hmem1 & Hbnd1 & _ & Hpend1 & _).
  destruct (copyDataFrom_idle_memory dst (vertexBuffer staging) q pool w1 w2)
    as [Hbnd2 Hmem2]; [by rewrite Hpend1|done|].
  set (ns := N.to_nat (size staging)) in *.
  set (nd := N.to_nat (size dst)) in *.
  assert (nd ≤ ns)%nat as Hnd by lia.
  set (sm1 := overwrite x ns sm).
  assert (Hsm1 : memory w1 !! allocation staging = Some sm1)
    by (by rewrite Hmem1, lookup_alter_eq, Hsm).
  assert (Hl1 : length sm1 = length sm).
  { unfold sm1, overwrite.
    rewrite length_app, length_take, length_drop. lia. }
  assert (∃ dm1, memory w1 !! da = Some dm1 ∧ length dm1 = nd)
    as (dm1 & Hdm1 & Hl2).
  { destruct (decide (da = allocation staging)) as [->|Hne].
    - exists sm1. split; [done|]. rewrite Hl1.
      assert (sm = dm) as -> by congruence. done.
    - exists dm. split; [|done]. by rewrite Hmem1, lookup_alter_ne. }
  destruct (copy_whole_buffer (binding w1) (vertexBuffer staging)
              (vertexBuffer dst) (size dst) (memory w1)
              (allocation staging) da sm1 dm1) as [_ Hdst];
    [by rewrite Hbnd1|by rewrite Hbnd1|done|done|fold nd; lia|done|].
  unfold buffer_content. rewrite Hbnd2, Hbnd1, Hdb. simpl.
  rewrite Hmem2, Hdst. f_equal. fold nd. unfold sm1, overwrite.
  rewrite take_app_le by (rewrite length_take; lia).
  rewrite take_take. f_equal. lia.
Qed.

Ltac case_on_result :=
  match goal with
  | H : (api_result ?c ?w =? VK_SUCCESS) = _
    |- context [api_result ?c ?w =? VK_SUCCESS] => rewrite H
  | |- context [if (api_result ?c ?w =? VK_SUCCESS) then _ else _] =>
      destruct (api_result c w =? VK_SUCCESS) eqn:?
  end; cbv beta iota.

(** X13.  A transfer that returns cleans up after itself: the command
    buffers are those of before without the handle it used, so exactly
    those of before when that handle was not live; nothing is pending on
    the transfer queue and the other queues are as they were. *)
Theorem copyDataFrom_cleans_up (this : Buffer) (src q pool : N)
    (w w' : World) :
  copyDataFrom api_result this src q pool w = (Ok (), w') →
  let cb := N.succ (last_handle w) in
  cmdbufs w' = delete cb (cmdbufs w)
  ∧ (cmdbufs w !! cb = None → cmdbufs w' = cmdbufs w)
  ∧ pending w' = delete q (pending w).
Proof.
  destruct w as [mem bnd cbs pnd lh cs].
  cbv beta iota zeta delta [copyDataFrom cmdCopyDataFrom CHECK_VK_SUCCESS
    vkAllocateCommandBuffers vkBeginCommandBuffer vkCmdCopyBuffer
    vkEndCommandBuffer vkQueueSubmit vkQueueWaitIdle
    vkFreeCommandBuffers mbind M_bind mret M_ret throw
    log set_memory set_binding set_cmdbufs set_pending set_last_handle
    memory binding cmdbufs pending last_handle calls commandPool].
  repeat case_on_result.
  all: intros [= <-]; cbv beta iota.
  assert (Hcbs : foldr delete
                   (alter (λ pc : N * list Command,
                             (pc.1,
                              pc.2 ++ [CopyBuffer src (vertexBuffer this)
                                         [{| srcOffset := 0; dstOffset := 0;
                                             copyRegion_size := size this |}]]))
                      (N.succ lh)
                      (alter (λ pc : N * list Command, (pc.1, [])) (N.succ lh)
                         (<[N.succ lh := (pool, [])]> cbs)))
                   [N.succ lh]
                 = delete (N.succ lh) cbs).
  { simpl. apply map_eq. intros k.
    destruct (decide (k = N.succ lh)) as [->|Hne].
    - by rewrite !lookup_delete_eq.
    - rewrite !lookup_delete_ne by done.
      by rewrite !lookup_alter_ne, lookup_insert_ne. }
  split; [exact Hcbs|]. split.
  - intros Hfresh. etrans; [exact Hcbs|]. by apply delete_id.
  - apply delete_insert_eq.
Qed.

(** X14.  The typed load of the uniform-buffer specialisation, on a
    buffer whose size is that of the payload, as its constructor makes
    it: a successful load copies the whole payload object, and nothing
    beyond it, over the start of the allocation. *)
Theorem UniformObjBuffer_loadData_whole_payload (this : Buffer)
    (payload region : list byte) (offset : N) (w w' : World) :
  size this = N.of_nat (length payload) →
  memory w !! allocation this = Some region →
  UniformObjBuffer_loadData api_result this payload offset w
  = (Ok VK_SUCCESS, w') →
  memory w' !! allocation this
  = Some (payload ++ drop (length payload) region)
  ∧ memcpy_call (allocation this) payload (N.of_nat (length payload))
      ∈ calls_since w w'.
Proof.
  intros Hsize Hregion Hload. unfold UniformObjBuffer_loadData in Hload.
  destruct (loadData_success_effect _ _ _ _ _ _ Hload) as (Hcalls & Hmem & _).
  split.
  - rewrite Hmem, lookup_alter_eq, Hregion. simpl. unfold overwrite.
    rewrite Hsize, Nat2N.id. by rewrite firstn_all.
  - rewrite (calls_since_app _ _ _ Hcalls), Hsize. set_solver.
Qed.

End DataFlowFacts.

(** * The further properties at work on the two small buffers *)

Section FurtherWitnesses.
Import Buffers Objects Scenario Backing Uniform.

Lemma two_buffers_disciplined :
  sole_owners two_buffers ∧ well_backed (world two_buffers).
Proof.
  apply run_disciplined; [apply sole_owners_empty|apply well_backed_empty].
Qed.

Lemma construct_destroy_round_trip_witness :
  let w1 := after (Buffer_ctor always_succeeds 1 2 3 4 32 0 6 None)
              empty_world in
  let w2 := after (Buffer_dtor first_buffer) w1 in
  Buffer_ctor always_succeeds 1 2 3 4 32 0 6 None empty_world
  = (Ok first_buffer, w1)
  ∧ binding w1 !! 1%N = Some 2%N
  ∧ binding w2 = ∅ ∧ memory w2 = ∅ ∧ released w2 = [(1%N, 2%N)].
Proof.
  intros w1 w2.
  assert (Hctor : Buffer_ctor always_succeeds 1 2 3 4 32 0 6 None empty_world
                  = (Ok first_buffer, w1)) by (by vm_compute).
  split; [exact Hctor|]. split; [by vm_compute|].
  destruct (construct_destroy_round_trip always_succeeds 1 2 3 4 32 0 6 None
              empty_world w1 first_buffer well_backed_empty)
    as (Hbnd & Hmem & Hrel & _); [discriminate|exact Hctor|].
  split; [exact Hbnd|]. split; [exact Hmem|exact Hrel].
Defined.

Lemma null_device_buffer_is_never_released_witness :
  let b := {| logicalDev := 0; allocator := 2; size := 4;
              vertexBuffer := 5; allocation := 6 |} in
  let p' := step always_succeeds (New 12 0 2 3 4 32 0 6 None) two_buffers in
  objects p' !! 12%N = Some b
  ∧ binding (world p') !! 5%N = Some 6%N
  ∧ world (step always_succeeds (Delete 12) p') = world p'
  ∧ (5%N, 6%N)
      ∉ released (world (run always_succeeds [Delete 12; Delete 10] p')).
Proof.
  intros b p'.
  destruct (null_device_buffer_is_never_released always_succeeds two_buffers
              12 2 3 4 32 0 6 None b
              (after (Buffer_ctor always_succeeds 0 2 3 4 32 0 6 None)
                 (world two_buffers)))
    as (Hobj & _ & Hlive & Hdel & Hnever);
    [apply two_buffers_disciplined | by vm_compute | by vm_compute |].
  fold p' in Hobj, Hlive, Hdel, Hnever.
  split; [exact Hobj|]. split; [exact Hlive|]. split; [exact Hdel|].
  apply Hnever.
Defined.

Lemma other_buffers_are_untouched_witness :
  buffer_content (world two_buffers) 3 = Some [x00; x00; x00; x00]
  ∧ buffer_content (world (step always_succeeds (Delete 10) two_buffers)) 3
    = Some [x00; x00; x00; x00]
  ∧ buffer_content
      (world (step always_succeeds (LoadData 10 five_bytes 0) two_buffers)) 3
    = Some [x00; x00; x00; x00].
Proof.
  destruct two_buffers_disciplined as [Hp Hw].
  destruct (other_buffers_are_untouched always_succeeds two_buffers 10 11
              first_buffer second_buffer Hp Hw)
    as ((_ & Hdel) & Hload & _);
    [done | by vm_compute | by vm_compute | done | done |].
  assert (Hc : buffer_content (world two_buffers) 3
               = Some [x00; x00; x00; x00]) by (by vm_compute).
  split; [exact Hc|]. split.
  - etrans; [exact Hdel|exact Hc].
  - etrans; [exact (Hload five_bytes 0%N)|exact Hc].
Defined.

Lemma move_there_and_back_witness :
  let p' := run always_succeeds [MoveAssign 10 11; MoveAssign 11 10]
              two_buffers in
  objects p' !! 11%N = Some second_buffer
  ∧ isInitialized <$> objects p' !! 10%N = Some false.
Proof.
  intros p'.
  destruct (move_there_and_back always_succeeds two_buffers 10 11
              first_buffer second_buffer)
    as (Hback & Hleft & _); [done | by vm_compute | by vm_compute |].
  fold p' in Hback, Hleft.
  split; [exact Hback|]. by rewrite Hleft.
Defined.

Lemma moved_from_object_still_writes_witness :
  let p' := run always_succeeds [MoveAssign 10 11; LoadData 11 five_bytes 0]
              two_buffers in
  objects p' !! 10%N = Some second_buffer
  ∧ isInitialized <$> objects p' !! 11%N = Some false
  ∧ buffer_content (world p') 3 = Some [x61; x62; x63; x64].
Proof.
  intros p'.
  destruct (moved_from_object_still_writes always_succeeds two_buffers 10 11
              first_buffer second_buffer five_bytes [x00; x00; x00; x00] 0)
    as (Hdst & Hsrc & Hmem);
    [done | by vm_compute | by vm_compute | by vm_compute | done |].
  fold p' in Hdst, Hsrc, Hmem.
  split; [exact Hdst|]. split; [exact Hsrc|].
  unfold buffer_content.
  assert (binding (world p') !! 3%N = Some 4%N) as -> by (by vm_compute).
  simpl. exact Hmem.
Defined.

Lemma loadData_last_write_wins_witness :
  let w1 := second_loaded in
  let w2 := after (loadData always_succeeds second_buffer
                     [x31; x32; x33; x34] 0) w1 in
  memory w1 !! 4%N = Some [x61; x62; x63; x64]
  ∧ memory w2 !! 4%N = Some [x31; x32; x33; x34].
Proof.
  intros w1 w2. split; [by vm_compute|].
  rewrite (loadData_last_write_wins always_succeeds second_buffer five_bytes
             [x31; x32; x33; x34] 0 0 (world two_buffers) w1 w2);
    [by vm_compute | simpl; lia | by vm_compute | by vm_compute].
Defined.

Lemma upload_through_staging_witness :
  let w2 := after (copyDataFrom_Buffer always_succeeds first_buffer
                     second_buffer 7 8) second_loaded in
  buffer_content (world two_buffers) 1 = Some [x00; x00; x00; x00]
  ∧ buffer_content w2 1 = Some [x61; x62; x63; x64].
Proof.
  intros w2. split; [by vm_compute|].
  exact (upload_through_staging always_succeeds second_buffer first_buffer
           five_bytes [x00; x00; x00; x00] [x00; x00; x00; x00] 0 7 8 2
           (world two_buffers) second_loaded w2
           ltac:(by vm_compute) ltac:(by vm_compute) ltac:(by vm_compute)
           ltac:(by vm_compute) ltac:(reflexivity) ltac:(by vm_compute)
           ltac:(simpl; lia) ltac:(simpl; lia) ltac:(by vm_compute)
           ltac:(by vm_compute) ltac:(by vm_compute)).
Defined.

Lemma copyDataFrom_cleans_up_witness :
  let w' := after (copyDataFrom always_succeeds first_buffer 3 7 8)
              second_loaded in
  cmdbufs w' = cmdbufs second_loaded ∧ pending w' !! 7%N = None.
Proof.
  intros w'.
  destruct (copyDataFrom_cleans_up always_succeeds first_buffer 3 7 8
              second_loaded w') as (_ & Hsame & Hpending);
    [by vm_compute|].
  split; [apply Hsame; by vm_compute|].
  rewrite Hpending. apply lookup_delete_eq.
Defined.

Lemma UniformObjBuffer_loadData_whole_payload_witness :
  let w' := after (UniformObjBuffer_loadData always_succeeds second_buffer
                     [x31; x32; x33; x34] 0) (world two_buffers) in
  memory w' !! 4%N = Some [x31; x32; x33; x34].
Proof.
  intros w'.
  destruct (UniformObjBuffer_loadData_whole_payload always_succeeds
              second_buffer [x31; x32; x33; x34] [x00; x00; x00; x00] 0
              (world two_buffers) w')
    as [Hmem _]; [done | by vm_compute | by vm_compute |].
  exact Hmem.
Defined.

End FurtherWitnesses.

(** * Relaxing the selection, and what an object keeps *)

Section RelaxedSelection.
Import Selector.

(** X15.  Relaxing the request never hurts: if a selection succeeds,
    then with fewer required flags and a filter that accepts at least the
    same types the selection succeeds too, at the same index or an
    earlier one. *)
Theorem getMemoryType_relaxed (memoryTypes : list Z)
    (properties properties' filter filter' : Z) (i : N) :
  is_uint32 filter → is_uint32 filter' →
  Z.land properties' properties = properties' →
  Z.land filter filter' = filter →
  getMemoryType memoryTypes properties filter = Ok i →
  ∃ j, getMemoryType memoryTypes properties' filter' = Ok j ∧ (j ≤ i)%N.
Proof.
  intros Hf Hf' Hsub Hfsub Hrun.
  pose proof (getMemoryType_from_spec memoryTypes properties filter Hf 0%N)
    as Hspec.
  pose proof (getMemoryType_from_spec memoryTypes properties' filter' Hf' 0%N)
    as Hspec'.
  change (wrap32 (2 ^ Z.of_N 0)) with 1 in Hspec, Hspec'.
  unfold getMemoryType in *. rewrite Hrun in Hspec.
  destruct Hspec as (_ & Hbit & (flags & Hl & Hp) & _).
  assert (Hbit' : Z.testbit filter' (Z.of_N i) = true).
  { rewrite <- Hfsub, Z.land_spec in Hbit.
    by apply andb_true_iff in Hbit as [_ ?]. }
  assert (Hp' : Z.land flags properties' = properties').
  { rewrite <- Hsub at 1. rewrite (Z.land_comm properties' properties).
    rewrite Z.land_assoc, Hp. by rewrite Z.land_comm. }
  destruct (getMemoryType_from memoryTypes properties' filter' 0%N 1)
    as [j|e].
  - exists j. split; [done|].
    destruct Hspec' as (_ & _ & _ & Hmin).
    destruct (decide (j ≤ i)%N) as [|Hgt]; [done|]. exfalso.
    apply (Hmin i flags); [lia|done|done].
  - exfalso. destruct Hspec' as (_ & Hnone).
    apply (Hnone i flags); [lia|done|done].
Qed.

Lemma getMemoryType_relaxed_witness :
  getMemoryType [7; 1; 6; 6] 6 4 = Ok 2%N
  ∧ ∃ j, getMemoryType [7; 1; 6; 6] 2 5 = Ok j ∧ (j ≤ 2)%N.
Proof.
  split; [reflexivity|].
  apply (getMemoryType_relaxed [7; 1; 6; 6] 6 2 4 5 2);
    [unfold is_uint32, uint32_max; lia | unfold is_uint32, uint32_max; lia
    | reflexivity | reflexivity | reflexivity].
Defined.

End RelaxedSelection.

Section MemberFacts.
Import Buffers Objects Scenario.

Variable api_result : Call → World → VkResult.

Lemma step_keeps_handles op p this b :
  overwrites this op = false → objects p !! this = Some b →
  ∃ b', objects (step api_result op p) !! this = Some b'
        ∧ (b' = b ∨ b' = set_logicalDev nullptr b).
Proof.
  intros Hop Hb.
  destruct op as [this' dev vma pd sz us mu mf uq | this' buf | this' buf
                 | this' | this' data off | this' src q pool
                 | this' src q pool | this' src cb | this' src cb]; simpl.
  - destruct (objects p !! this') eqn:Ht; [by eauto|].
    assert (this ≠ this') by (intros ->; congruence).
    destruct (Buffer_ctor _ _ _ _ _ _ _ _ _ _) as [[b0|e] w0]; simpl.
    + rewrite lookup_insert_ne by done. eauto.
    + eauto.
  - destruct (objects p !! this') eqn:Ht; [by eauto|]. simpl.
    assert (this ≠ this') by (intros ->; congruence).
    destruct (objects p !! buf) as [s|] eqn:Hs.
    + destruct (decide (buf = this)) as [->|Hne].
      * destruct (Buffer_move_ctor_distinct this' this (objects p) b)
          as [_ ->]; [done..|]. eauto.
      * rewrite Buffer_move_ctor_other by done. eauto.
    + rewrite Buffer_move_ctor_absent by done. eauto.
  - simpl in Hop. apply bool_decide_eq_false in Hop.
    destruct (decide (buf = this)) as [->|Hne].
    + rewrite (Buffer_move_assign_source this' this (objects p) b) by done.
      eauto.
    + rewrite Buffer_move_assign_other by done. eauto.
  - simpl in Hop. apply bool_decide_eq_false in Hop.
    destruct (objects p !! this') eqn:Ht; [|by eauto]. simpl.
    rewrite lookup_delete_ne by done. eauto.
  - destruct (objects p !! this'); eauto.
  - destruct (objects p !! this'); [|by eauto].
    destruct (objects p !! src); eauto.
  - destruct (objects p !! this'); eauto.
  - destruct (objects p !! this'); [|by eauto].
    destruct (objects p !! src); eauto.
  - destruct (objects p !! this'); eauto.
Qed.

(** X16.  Through every sequence of operations that neither destroys an
    object nor move-assigns into it, the object stays where it is and
    keeps its allocator, its size and both handle values; its device
    pointer is either what it was or null, and once null it stays null:
    being moved from changes nothing else, and nothing but a move
    assignment into the object makes it initialised again. *)
Theorem members_kept (ops : list Op) (p : Program) (this : N) (b : Buffer) :
  Forall (λ op, overwrites this op = false) ops →
  objects p !! this = Some b →
  ∃ b', objects (run api_result ops p) !! this = Some b'
        ∧ allocator b' = allocator b ∧ size b' = size b
        ∧ vertexBuffer b' = vertexBuffer b ∧ allocation b' = allocation b
        ∧ (logicalDev b' = logicalDev b ∨ logicalDev b' = nullptr)
        ∧ (isInitialized b = false → isInitialized b' = false).
Proof.
  intros Hops. revert p b.
  induction Hops as [|op ops Hop _ IH]; intros p b Hb; simpl.
  - exists b. repeat split; auto.
  - destruct (step_keeps_handles op p this b Hop Hb) as (b1 & Hb1 & Hsame).
    destruct (IH _ _ Hb1) as (b' & Hb' & Ha & Hs & Hv & Hal & Hd & Hi).
    exists b'. split; [done|].
    destruct Hsame as [-> | ->]; [done|].
    simpl in *. repeat split; try done.
    + destruct Hd as [-> | ->]; by right.
    + intros _. by apply Hi.
Qed.

End MemberFacts.

Section MemberWitness.
Import Buffers Objects Scenario.

Lemma members_kept_witness :
  let p' := run always_succeeds
              [MoveNew 12 11; LoadData 11 five_bytes 0; Delete 10]
              two_buffers in
  ∃ b', objects p' !! 11%N = Some b'
        ∧ vertexBuffer b' = 3%N ∧ allocation b' = 4%N ∧ size b' = 4%N
        ∧ isInitialized b' = false.
Proof.
  intros p'.
  destruct (members_kept always_succeeds
              [MoveNew 12 11; LoadData 11 five_bytes 0; Delete 10]
              two_buffers 11 second_buffer)
    as (b' & Hb' & _ & Hs & Hv & Hal & _ & _);
    [repeat constructor | by vm_compute |].
  fold p' in Hb'. exists b'.
  split; [exact Hb'|]. split; [exact Hv|]. split; [exact Hal|].
  split; [exact Hs|].
  assert (Hrun : objects p' !! 11%N
                 = Some (set_logicalDev nullptr second_buffer))
    by (by vm_compute).
  rewrite Hrun in Hb'. by injection Hb' as <-.
Defined.

End MemberWitness.
